(** * Shafaf-Aid: the synthetic data generator

    A shallow embedding of [scripts/generate_synthetic_data.py] and the
    properties its specification states about the generated lists.

    Python values are modelled as follows.
    - [str] is a sequence of Unicode code points ([list N]); the literals of
      the script are read through [utf8], the decoding Python applies to
      its (UTF-8) source file.
    - [int] is [Z].
    - The dict literals with fixed keys are records ([Country], [Org],
      [Region], [Edge]); [REGIONS_DB], the one dict used as a map, is an
      association list in insertion order.
    - Exceptions are the [Raise] results of [result].
    - The process-wide generator of module [random] is a tape of raw
      numbers with a cursor, threaded through the monad [M]. *)

From Stdlib Require Import String Ascii List NArith ZArith Bool Arith Lia.
Import ListNotations.

(** ** Python strings *)

Module Py.

Definition str := list N.

Definition bytes_of (s : string) : list N :=
  map N_of_ascii (list_ascii_of_string s).

(** UTF-8 decoding of well-formed input (one to four bytes per code point). *)
Fixpoint utf8_decode (bs : list N) : str :=
  match bs with
  | [] => []
  | b0 :: t0 =>
    if (b0 <? 128)%N then b0 :: utf8_decode t0
    else
      match t0 with
      | [] => []
      | b1 :: t1 =>
        if (b0 <? 224)%N
        then ((b0 mod 32) * 64 + b1 mod 64)%N :: utf8_decode t1
        else
          match t1 with
          | [] => []
          | b2 :: t2 =>
            if (b0 <? 240)%N
            then ((b0 mod 16) * 4096 + (b1 mod 64) * 64 + b2 mod 64)%N
                   :: utf8_decode t2
            else
              match t2 with
              | [] => []
              | b3 :: t3 =>
                ((b0 mod 8) * 262144 + (b1 mod 64) * 4096
                 + (b2 mod 64) * 64 + b3 mod 64)%N :: utf8_decode t3
              end
          end
      end
  end.

Definition utf8 (s : string) : str := utf8_decode (bytes_of s).

Fixpoint str_eqb (a b : str) : bool :=
  match a, b with
  | [], [] => true
  | x :: a', y :: b' => (x =? y)%N && str_eqb a' b'
  | _, _ => false
  end.

(** [old] is a prefix of [s]. *)
Fixpoint startswith (s old : str) {struct old} : bool :=
  match old, s with
  | [], _ => true
  | o :: old', c :: s' => (c =? o)%N && startswith s' old'
  | _ :: _, [] => false
  end.

(** [s.replace(old, new)]: every non-overlapping occurrence of [old], found
    from the left, becomes [new].  [skip] counts the code points of a matched
    occurrence that are still to be dropped. *)
Fixpoint replace_from (old new : str) (skip : nat) (s : str) : str :=
  match s with
  | [] => []
  | c :: s' =>
    match skip with
    | S k => replace_from old new k s'
    | O =>
      if startswith s old
      then new ++ replace_from old new (length old - 1) s'
      else c :: replace_from old new 0 s'
    end
  end.

Definition replace (old new s : str) : str :=
  match old with
  | [] => new ++ flat_map (fun c => c :: new) s
  | _ :: _ => replace_from old new 0 s
  end.

(** Case mapping.  The model is exact on the code points whose case partner
    lies in U+0000..U+00FF (Basic Latin and the Latin-1 letters U+00C0..U+00FE
    other than the multiplication and division signs); every other code point
    is treated as caseless.  This departs from Python on U+00AA, U+00B5,
    U+00BA, U+00DF and U+00FF (cased there, with upper-case forms outside
    Latin-1 for three of them) and on the cased code points above U+00FF:
    [lower] is exact below U+0100, [title] and [capitalize] on Basic Latin
    and on U+00C0..U+00FE.  The source applies [title] to the slugs of
    [REGIONS_DB] only, which are in Basic Latin, and [lower] to the names of
    [NGO_NAMES], which are below U+0100. *)
Definition is_upper (c : N) : bool :=
  ((65 <=? c) && (c <=? 90) || (192 <=? c) && (c <=? 222) && negb (c =? 215))%N.

Definition is_lower (c : N) : bool :=
  ((97 <=? c) && (c <=? 122) || (224 <=? c) && (c <=? 254) && negb (c =? 247))%N.

Definition is_cased (c : N) : bool := is_upper c || is_lower c.

Definition to_lower (c : N) : N := if is_upper c then (c + 32)%N else c.

Definition to_upper (c : N) : N := if is_lower c then (c - 32)%N else c.

(** [s.lower()] *)
Definition lower (s : str) : str := map to_lower s.

(** [s.title()]: a cased code point is upper-cased when the code point
    before it is not cased, lower-cased otherwise. *)
Fixpoint title_from (previous_is_cased : bool) (s : str) : str :=
  match s with
  | [] => []
  | c :: s' =>
    (if previous_is_cased then to_lower c else to_upper c)
      :: title_from (is_cased c) s'
  end.

Definition title (s : str) : str := title_from false s.

(** [s.capitalize()]: first code point upper-cased, the others lower-cased. *)
Definition capitalize (s : str) : str :=
  match s with
  | [] => []
  | c :: s' => to_upper c :: lower s'
  end.

(** [s.split(sep)] and [sep.join(parts)] for a one code point separator. *)
Fixpoint split_from (sep : N) (word : str) (s : str) : list str :=
  match s with
  | [] => [rev word]
  | c :: s' =>
    if (c =? sep)%N then rev word :: split_from sep [] s'
    else split_from sep (c :: word) s'
  end.

Definition split (sep : N) (s : str) : list str := split_from sep [] s.

Fixpoint join (sep : str) (parts : list str) : str :=
  match parts with
  | [] => []
  | [p] => p
  | p :: ps => p ++ sep ++ join sep ps
  end.

(** [c.isspace()] *)
Definition isspace (c : N) : bool :=
  ((9 <=? c) && (c <=? 13) || (28 <=? c) && (c <=? 32) || (c =? 133)
   || (c =? 160) || (c =? 5760) || (8192 <=? c) && (c <=? 8202)
   || (c =? 8232) || (c =? 8233) || (c =? 8239) || (c =? 8287)
   || (c =? 12288))%N.

(** Letters of the Latin-1 block that carry a diacritic (they decompose
    into a base letter and a combining mark), and the combining marks
    themselves. *)
Definition is_accented (c : N) : bool :=
  ((192 <=? c) && (c <=? 197) || (199 <=? c) && (c <=? 207)
   || (209 <=? c) && (c <=? 214) || (217 <=? c) && (c <=? 221)
   || (224 <=? c) && (c <=? 229) || (231 <=? c) && (c <=? 239)
   || (241 <=? c) && (c <=? 246) || (249 <=? c) && (c <=? 253)
   || (c =? 255) || (768 <=? c) && (c <=? 879))%N.

(** ** Exceptions *)

Inductive Exn := IndexError | KeyError | ValueError.

Inductive result (A : Type) : Type :=
| Ok (a : A)
| Raise (e : Exn).

Arguments Ok {A} a.
Arguments Raise {A} e.

Definition rbind {A B} (r : result A) (k : A -> result B) : result B :=
  match r with
  | Ok a => k a
  | Raise e => Raise e
  end.

(** [xs[i]] for a non-negative index. *)
Definition getitem {A} (xs : list A) (i : nat) : result A :=
  match nth_error xs i with
  | Some x => Ok x
  | None => Raise IndexError
  end.

(** [for i in range(n)] with the loop-carried value [acc]. *)
Fixpoint for_range_from {St} (i n : nat) (body : nat -> St -> result St)
  (acc : St) : result St :=
  match n with
  | O => Ok acc
  | S n' => rbind (body i acc) (for_range_from (S i) n' body)
  end.

Definition for_range {St} (n : nat) (body : nat -> St -> result St) (acc : St) :=
  for_range_from 0 n body acc.

(** [for x in xs] with the loop-carried value [acc]. *)
Fixpoint for_each {A St} (xs : list A) (body : A -> St -> result St)
  (acc : St) : result St :=
  match xs with
  | [] => Ok acc
  | x :: xs' => rbind (body x acc) (for_each xs' body)
  end.

(** ** Dicts used as maps

    Entries are kept in insertion order; the keys of a dict are distinct. *)

Definition dict (V : Type) := list (str * V).

Fixpoint dict_get {V} (d : dict V) (k : str) : option V :=
  match d with
  | [] => None
  | (k', v) :: d' => if str_eqb k k' then Some v else dict_get d' k
  end.

(** [k in d] *)
Definition dict_contains {V} (d : dict V) (k : str) : bool :=
  match dict_get d k with
  | Some _ => true
  | None => false
  end.

(** [d[k]] *)
Definition dict_getitem {V} (d : dict V) (k : str) : result V :=
  match dict_get d k with
  | Some v => Ok v
  | None => Raise KeyError
  end.

End Py.

Import Py.

Declare Scope py_scope.
Delimit Scope py_scope with py.
Notation "x <- c1 ;; c2" := (rbind c1 (fun x => c2))
  (at level 61, c1 at next level, right associativity) : py_scope.

(** ** The random module

    The generator is a tape of raw numbers read at a cursor; each primitive
    reads one entry and reduces it to its range, so every outcome of the
    Python primitive is the outcome of some tape, and conversely. *)

Module Random.

Record state := make { tape : nat -> N; pos : nat }.

Definition M (A : Type) := state -> result (A * state).

Definition ret {A} (a : A) : M A := fun s => Ok (a, s).

Definition raise {A} (e : Exn) : M A := fun _ => Raise e.

Definition bind {A B} (m : M A) (k : A -> M B) : M B :=
  fun s =>
    match m s with
    | Ok (a, s') => k a s'
    | Raise e => Raise e
    end.

Definition lift {A} (r : result A) : M A :=
  fun s =>
    match r with
    | Ok a => Ok (a, s)
    | Raise e => Raise e
    end.

Definition next_raw : M N :=
  fun s => Ok (tape s (pos s), make (tape s) (S (pos s))).

(** [_randbelow(n)]: an integer in [0, n). *)
Definition randbelow (n : N) : M N :=
  bind next_raw (fun r => ret (r mod n)%N).

(** [random.choice(seq)] *)
Definition choice {A} (seq : list A) : M A :=
  match seq with
  | [] => raise IndexError
  | _ :: _ =>
    bind (randbelow (N.of_nat (length seq)))
         (fun i => lift (getitem seq (N.to_nat i)))
  end.

(** [random.randint(a, b)], that is [a + _randbelow(b - a + 1)]. *)
Definition randint (a b : Z) : M Z :=
  if (b - a + 1 <=? 0)%Z then raise ValueError
  else bind (randbelow (Z.to_N (b - a + 1)))
            (fun r => ret (a + Z.of_N r)%Z).

(** [random.random()] is the float [k / 2^53] for a 53-bit integer [k];
    the model returns [k]. *)
Definition random : M N :=
  bind next_raw (fun r => ret (r mod 9007199254740992)%N).

(** [u < 0.7] for [u = k / 2^53]: the double written [0.7] is
    [6305039478318694 / 2^53], and both sides are exact. *)
Definition lt_0_7 (k : N) : bool := (k <? 6305039478318694)%N.

(** [for _ in range(n)] with the loop-carried value [acc]. *)
Fixpoint for_times {St} (n : nat) (body : St -> M St) (acc : St) : M St :=
  match n with
  | O => ret acc
  | S n' => bind (body acc) (for_times n' body)
  end.

End Random.

Declare Scope random_scope.
Delimit Scope random_scope with random.
Notation "x <- c1 ;; c2" := (Random.bind c1 (fun x => c2))
  (at level 61, c1 at next level, right associativity) : random_scope.

(** ** Records of the data set *)

Module Country.
Record t := make
  { id : str; name : str; population : Z; need_level : str }.
End Country.

Module Org.
Record t := make { id : str; name : str }.
End Org.

Module Region.
Record t := make
  { id : str; country_id : str; name : str; population : Z;
    need_level : str }.
End Region.

Module Edge.
Record t := make
  { org_id : str; region_id : str; aid_type : str; project_count : Z }.
End Edge.

(** ** Configuration, constants and seed data *)

Definition OUTPUT_DIR : str := utf8 "src/data".
Definition NUM_ORGS : nat := 15.
Definition TOTAL_PROJECTS : nat := 180.

Definition NEED_LEVELS : list str := map utf8 ["low"; "medium"; "high"]%string.
Definition AID_TYPES : list str :=
  map utf8 ["food"; "medical"; "infrastructure"]%string.

Definition country (id name : string) (population : Z) (need : string) :=
  Country.make (utf8 id) (utf8 name) population (utf8 need).

Definition COUNTRIES : list Country.t :=
  [ country "syria" "Syria" 21500000 "high";
    country "yemen" "Yemen" 33000000 "high";
    country "sudan" "Sudan" 45000000 "high";
    country "afghanistan" "Afghanistan" 40000000 "high";
    country "somalia" "Somalia" 17000000 "high";
    country "palestine" "Palestine" 5000000 "high";
    country "myanmar" "Myanmar" 54000000 "medium";
    country "ethiopia" "Ethiopia" 120000000 "medium" ].

Definition row (r_name : string) (r_pop : Z) (r_need : string)
  : str * Z * str := (utf8 r_name, r_pop, utf8 r_need).

Definition REGIONS_DB : dict (list (str * Z * str)) :=
  [ (utf8 "syria",
      [ row "aleppo" 4500000 "high"; row "idlib" 3000000 "high";
        row "damascus" 2500000 "medium"; row "homs" 1500000 "medium";
        row "raqqa" 900000 "high" ]);
    (utf8 "yemen",
      [ row "sanaa" 4000000 "high"; row "aden" 1200000 "medium";
        row "taiz" 2800000 "high"; row "hodeidah" 2000000 "high";
        row "marib" 1000000 "high" ]);
    (utf8 "sudan",
      [ row "khartoum" 6000000 "high"; row "darfur" 9000000 "high";
        row "kordofan" 4000000 "high"; row "blue-nile" 1200000 "medium" ]);
    (utf8 "afghanistan",
      [ row "kabul" 4500000 "high"; row "herat" 2000000 "medium";
        row "kandahar" 1500000 "high"; row "mazar" 1000000 "medium" ]);
    (utf8 "somalia",
      [ row "mogadishu" 2500000 "high"; row "baidoa" 800000 "high";
        row "hargeisa" 1200000 "low"; row "kismayo" 500000 "high" ]);
    (utf8 "palestine",
      [ row "gaza" 2300000 "high"; row "west-bank-north" 1500000 "medium";
        row "west-bank-south" 1200000 "medium" ]);
    (utf8 "myanmar",
      [ row "rakhine" 3000000 "high"; row "yangon" 7000000 "low";
        row "mandalay" 1500000 "low" ]);
    (utf8 "ethiopia",
      [ row "tigray" 6000000 "high"; row "amhara" 20000000 "medium";
        row "oromia" 35000000 "medium"; row "somali-region" 5000000 "high" ])
  ]%string.

Definition NGO_NAMES : list str :=
  map utf8
    [ "World Food Programme"; "Médecins Sans Frontières"; "ICRC";
      "UN Refugee Agency"; "UNICEF"; "Oxfam";
      "International Rescue Committee"; "World Health Organization";
      "Save the Children"; "Islamic Relief"; "CARE International";
      "Mercy Corps"; "Norwegian Refugee Council"; "Action Against Hunger";
      "Direct Relief" ]%string.

(** ** The builders of orgs and regions *)

Local Open Scope py_scope.

Definition generate_orgs : result (list Org.t) :=
  for_range (length NGO_NAMES)
    (fun i orgs =>
       name <- getitem NGO_NAMES i ;;
       let org_id :=
         replace (utf8 "ç") (utf8 "c")
           (replace (utf8 "é") (utf8 "e")
              (replace (utf8 " ") (utf8 "-") (lower name))) in
       Ok (orgs ++ [Org.make org_id name]))
    [].

Definition generate_regions (countries : list Country.t)
  : result (list Region.t) :=
  for_each countries
    (fun country regions =>
       let cid := Country.id country in
       if dict_contains REGIONS_DB cid then
         rows <- dict_getitem REGIONS_DB cid ;;
         for_each rows
           (fun '(r_name, r_pop, r_need) regions =>
              let rid := cid ++ utf8 "-" ++ r_name in
              Ok (regions ++
                   [Region.make rid cid
                      (replace (utf8 "-") (utf8 " ") (title r_name))
                      r_pop r_need]))
           regions
       else Ok regions)
    [].

Local Close Scope py_scope.

(** ** The edge builder *)

(** Position of the first element satisfying [p]: the object that
    [next((e for e in edges if p(e)), None)] returns, or [None]. *)
Fixpoint find_index {A} (p : A -> bool) (l : list A) : option nat :=
  match l with
  | [] => None
  | x :: l' =>
    if p x then Some O
    else match find_index p l' with
         | Some i => Some (S i)
         | None => None
         end
  end.

(** In-place update of the object at position [i]. *)
Fixpoint update_at {A} (i : nat) (f : A -> A) (l : list A) : list A :=
  match l, i with
  | [], _ => []
  | x :: l', O => f x :: l'
  | x :: l', S i' => x :: update_at i' f l'
  end.

Definition same_triple (org_id region_id aid_type : str) (e : Edge.t) : bool :=
  str_eqb (Edge.org_id e) org_id
  && str_eqb (Edge.region_id e) region_id
  && str_eqb (Edge.aid_type e) aid_type.

Definition add_count (count : Z) (e : Edge.t) : Edge.t :=
  Edge.make (Edge.org_id e) (Edge.region_id e) (Edge.aid_type e)
            (Edge.project_count e + count).

(** Lines 108 to 119: accumulate into the existing edge or append. *)
Definition record_projects (edges : list Edge.t) (org : Org.t)
  (target_region : Region.t) (aid_type : str) (count : Z) : list Edge.t :=
  let existing :=
    find_index (same_triple (Org.id org) (Region.id target_region) aid_type)
               edges in
  match existing with
  | Some i => update_at i (add_count count) edges
  | None =>
    edges ++ [Edge.make (Org.id org) (Region.id target_region) aid_type count]
  end.

Definition is_high_need (r : Region.t) : bool :=
  str_eqb (Region.need_level r) (utf8 "high").

Local Open Scope random_scope.

Definition generate_edges (orgs : list Org.t) (regions : list Region.t)
  : Random.M (list Edge.t) :=
  let high_need_regions := filter is_high_need regions in
  Random.for_times TOTAL_PROJECTS
    (fun edges =>
       org <- Random.choice orgs ;;
       u <- Random.random ;;
       target_region <-
         (if Random.lt_0_7 u then Random.choice high_need_regions
          else Random.choice regions) ;;
       aid_type <- Random.choice AID_TYPES ;;
       count <- Random.randint 1 15 ;;
       Random.ret (record_projects edges org target_region aid_type count))
    [].

(** The four lists that [main] hands to [json.dump]. *)
Record Dataset := mkDataset
  { countries : list Country.t;
    regions : list Region.t;
    orgs : list Org.t;
    edges : list Edge.t }.

Definition main : Random.M Dataset :=
  let countries := COUNTRIES in
  orgs <- Random.lift generate_orgs ;;
  regions <- Random.lift (generate_regions countries) ;;
  edges <- generate_edges orgs regions ;;
  Random.ret (mkDataset countries regions orgs edges).

Local Close Scope random_scope.

(** ** Statements of the specification, in its own words *)

(** The org id as the specification words it: the name lower-cased, spaces
    replaced with hyphens, and the two accented characters removed. *)
Definition spec_org_id (name : str) : str :=
  replace (utf8 "ç") []
    (replace (utf8 "é") []
       (replace (utf8 " ") (utf8 "-") (lower name))).

(** The substitution the source applies to one code point of a name. *)
Definition org_id_char (c : N) : N :=
  let l := to_lower c in
  if (l =? 32)%N then 45%N        (* space, hyphen *)
  else if (l =? 233)%N then 101%N (* e acute, e *)
  else if (l =? 231)%N then 99%N  (* c cedilla, c *)
  else l.

Fixpoint distinctb (l : list str) : bool :=
  match l with
  | [] => true
  | x :: l' => negb (existsb (str_eqb x) l') && distinctb l'
  end.

(** The display name as the specification words it: hyphens replaced with
    spaces, then each word capitalized. *)
Definition spec_display_name (slug : str) : str :=
  join (utf8 " ")
       (map capitalize (split 32 (replace (utf8 "-") (utf8 " ") slug))).

(** The records the specification asks for one country: one per tuple of
    its table entry, none when it has no entry. *)
Definition spec_regions_of (c : Country.t) : list Region.t :=
  match dict_get REGIONS_DB (Country.id c) with
  | Some rows =>
    map (fun '(slug, pop, need) =>
           Region.make (Country.id c ++ utf8 "-" ++ slug) (Country.id c)
                       (spec_display_name slug) pop need)
        rows
  | None => []
  end.

(** Number of table rows of a country (zero without an entry). *)
Definition row_count (c : Country.t) : nat :=
  match dict_get REGIONS_DB (Country.id c) with
  | Some rows => length rows
  | None => 0
  end.

Definition in_regions_db (c : Country.t) : bool :=
  dict_contains REGIONS_DB (Country.id c).

Definition display_names_agree (rows : list (str * Z * str)) : bool :=
  forallb (fun '(slug, _, _) =>
             str_eqb (replace (utf8 "-") (utf8 " ") (title slug))
                     (spec_display_name slug))
          rows.

Definition edge_key (e : Edge.t) : str * str * str :=
  (Edge.org_id e, Edge.region_id e, Edge.aid_type e).

(** ** Definitions used in the proofs *)

Definition region_of_row (cid : str) (r : str * Z * str) : Region.t :=
  let '(r_name, r_pop, r_need) := r in
  Region.make (cid ++ utf8 "-" ++ r_name) cid
              (replace (utf8 "-") (utf8 " ") (title r_name)) r_pop r_need.

Definition regions_of (c : Country.t) : list Region.t :=
  match dict_get REGIONS_DB (Country.id c) with
  | Some rows => map (region_of_row (Country.id c)) rows
  | None => []
  end.

Definition edge_ok (orgs : list Org.t) (regions : list Region.t)
  (e : Edge.t) : Prop :=
  (1 <= Edge.project_count e)%Z
  /\ In (Edge.org_id e) (map Org.id orgs)
  /\ In (Edge.region_id e) (map Region.id regions)
  /\ In (Edge.aid_type e) AID_TYPES.

(** After [n] iterations. *)
Definition edges_inv (orgs : list Org.t) (regions : list Region.t)
  (n : nat) (edges : list Edge.t) : Prop :=
  NoDup (map edge_key edges)
  /\ Forall (edge_ok orgs regions) edges
  /\ length edges <= n
  /\ (1 <= n -> 1 <= length edges).

(** The body of the loop of [generate_edges]. *)
Definition edge_body (orgs : list Org.t) (regions high_need_regions : list Region.t)
  (edges : list Edge.t) : Random.M (list Edge.t) :=
  (org <- Random.choice orgs ;;
   u <- Random.random ;;
   target_region <-
     (if Random.lt_0_7 u then Random.choice high_need_regions
      else Random.choice regions) ;;
   aid_type <- Random.choice AID_TYPES ;;
   count <- Random.randint 1 15 ;;
   Random.ret (record_projects edges org target_region aid_type count))%random.

(** ** Concrete runs *)

Definition demo_orgs : list Org.t :=
  [ Org.make (utf8 "icrc") (utf8 "ICRC");
    Org.make (utf8 "oxfam") (utf8 "Oxfam") ].

Definition demo_regions : list Region.t :=
  [ Region.make (utf8 "syria-aleppo") (utf8 "syria") (utf8 "Aleppo")
                4500000 (utf8 "high");
    Region.make (utf8 "myanmar-yangon") (utf8 "myanmar") (utf8 "Yangon")
                7000000 (utf8 "low") ].

Definition demo_tape : nat -> N :=
  fun i =>
    ((N.of_nat i * 6364136223846793005 + 1442695040888963407)
       mod 18446744073709551616)%N.

Definition demo_rng : Random.state := Random.make demo_tape 0.

Definition demo_edges :=
  Eval vm_compute in
    match generate_edges demo_orgs demo_regions demo_rng with
    | Ok (es, _) => es
    | Raise _ => []
    end.

Definition demo_end : Random.state := Random.make demo_tape 900.

Definition zero_rng : Random.state := Random.make (fun _ => 0%N) 0.
Definition one_rng : Random.state := Random.make (fun _ => 1%N) 0.

Definition dataset_or_empty (r : result (Dataset * Random.state)) : Dataset :=
  match r with
  | Ok (d, _) => d
  | Raise _ => mkDataset [] [] [] []
  end.

Definition zero_dataset :=
  Eval vm_compute in dataset_or_empty (main zero_rng).

Definition one_dataset :=
  Eval vm_compute in dataset_or_empty (main one_rng).

Definition demo_dataset :=
  Eval vm_compute in dataset_or_empty (main demo_rng).

Definition low_regions : list Region.t :=
  [ Region.make (utf8 "myanmar-yangon") (utf8 "myanmar") (utf8 "Yangon")
                7000000 (utf8 "low") ].

Definition top_rng : Random.state :=
  Random.make (fun _ => 9007199254740991%N) 0.

Definition two_high_regions : list Region.t :=
  [ Region.make (utf8 "syria-aleppo") (utf8 "syria") (utf8 "Aleppo")
                4500000 (utf8 "high");
    Region.make (utf8 "syria-idlib") (utf8 "syria") (utf8 "Idlib")
                3000000 (utf8 "high") ].

(** ** Definitions for the further properties *)

(** Code points on which the model of the case mappings is exact. *)
Definition latin1 (s : str) : bool := forallb (fun c => (c <? 256)%N) s.

(** The fields of a region other than its display name. *)
Definition region_core (r : Region.t) : str * str * Z * str :=
  (Region.id r, Region.country_id r, Region.population r,
   Region.need_level r).

Definition core_of_row (cid : str) (r : str * Z * str) : str * str * Z * str :=
  let '(r_name, r_pop, r_need) := r in
  (cid ++ utf8 "-" ++ r_name, cid, r_pop, r_need).

Definition row_ok (r : str * Z * str) : bool :=
  let '(_, r_pop, r_need) := r in
  existsb (str_eqb r_need) NEED_LEVELS && (0 <? r_pop)%Z.

(** [generate_orgs] with the module constant [NGO_NAMES] as a parameter. *)
Definition generate_orgs_with (NGO_NAMES : list str) : result (list Org.t) :=
  for_range (length NGO_NAMES)
    (fun i orgs =>
       (name <- getitem NGO_NAMES i ;;
        let org_id :=
          replace (utf8 "ç") (utf8 "c")
            (replace (utf8 "é") (utf8 "e")
               (replace (utf8 " ") (utf8 "-") (lower name))) in
        Ok (orgs ++ [Org.make org_id name]))%py)
    [].

(** [generate_regions] with the module constant [REGIONS_DB] as a
    parameter. *)
Definition generate_regions_with (REGIONS_DB : dict (list (str * Z * str)))
  (countries : list Country.t) : result (list Region.t) :=
  for_each countries
    (fun country regions =>
       let cid := Country.id country in
       if dict_contains REGIONS_DB cid then
         (rows <- dict_getitem REGIONS_DB cid ;;
          for_each rows
            (fun '(r_name, r_pop, r_need) regions =>
               let rid := cid ++ utf8 "-" ++ r_name in
               Ok (regions ++
                    [Region.make rid cid
                       (replace (utf8 "-") (utf8 " ") (title r_name))
                       r_pop r_need]))
            regions)%py
       else Ok regions)
    [].

(** The records of one country under a table [db]. *)
Definition regions_in (db : dict (list (str * Z * str))) (c : Country.t)
  : list Region.t :=
  match dict_get db (Country.id c) with
  | Some rows => map (region_of_row (Country.id c)) rows
  | None => []
  end.

(** The region ids the table yields for the country id [k]. *)
Definition ids_of_key (k : str) : list str :=
  match dict_get REGIONS_DB k with
  | Some rows => map (fun r => Region.id (region_of_row k r)) rows
  | None => []
  end.

(** What one iteration of the loop of [generate_edges] draws. *)
Record Draw := mkDraw
  { draw_org : Org.t; draw_region : Region.t; draw_aid : str;
    draw_count : Z }.

Definition draw_key (d : Draw) : str * str * str :=
  (Org.id (draw_org d), Region.id (draw_region d), draw_aid d).

Definition valid_draw (orgs : list Org.t) (regions : list Region.t)
  (d : Draw) : Prop :=
  In (draw_org d) orgs /\ In (draw_region d) regions
  /\ In (draw_aid d) AID_TYPES /\ (1 <= draw_count d <= 15)%Z.

(** Lines 108 to 119 applied to a sequence of draws, from the empty list. *)
Definition replay (draws : list Draw) : list Edge.t :=
  fold_left
    (fun edges d =>
       record_projects edges (draw_org d) (draw_region d) (draw_aid d)
                       (draw_count d))
    draws [].

Definition key_eqb (a b : str * str * str) : bool :=
  let '(a1, a2, a3) := a in
  let '(b1, b2, b3) := b in
  str_eqb a1 b1 && str_eqb a2 b2 && str_eqb a3 b3.

(** Projects recorded in [es] for the triple [k]. *)
Fixpoint tally (k : str * str * str) (es : list Edge.t) : Z :=
  match es with
  | [] => 0
  | e :: es' =>
    if key_eqb (edge_key e) k then (Edge.project_count e + tally k es')%Z
    else tally k es'
  end.

(** Projects drawn for the triple [k]. *)
Fixpoint drawn (k : str * str * str) (draws : list Draw) : Z :=
  match draws with
  | [] => 0
  | d :: ds =>
    if key_eqb (draw_key d) k then (draw_count d + drawn k ds)%Z
    else drawn k ds
  end.

(** A list of triples extended with [k] unless [k] is in it. *)
Definition add_key (ks : list (str * str * str)) (k : str * str * str) :=
  if existsb (key_eqb k) ks then ks else ks ++ [k].


(** The value [random.random()] returns in iteration [i] of the loop of
    [generate_edges] started in state [rng] (the second of the five draws of
    the iteration), as a numerator over [2^53]. *)
Definition iteration_random (rng : Random.state) (i : nat) : N :=
  (Random.tape rng (Random.pos rng + 5 * i + 1) mod 9007199254740992)%N.

Definition advance (n : nat) (s : Random.state) : Random.state :=
  Random.make (Random.tape s) (n + Random.pos s).

(** The element [random.choice(seq)] returns when the raw number it reads
    is [r]; none for an empty sequence. *)
Definition pick {A} (seq : list A) (r : N) : option A :=
  match seq with
  | [] => None
  | _ :: _ => nth_error seq (N.to_nat (r mod N.of_nat (length seq)))
  end.

(** What iteration [i] of the loop of [generate_edges], started in state
    [rng], draws, read off the tape: the five raw numbers of the iteration
    give the org, the comparison with 0.7, the region (among the high-need
    regions or among all), the aid type and the count. *)
Definition draw_of (orgs : list Org.t) (regions : list Region.t)
  (rng : Random.state) (i : nat) : option Draw :=
  let raw k := Random.tape rng (Random.pos rng + 5 * i + k) in
  let pool :=
    if Random.lt_0_7 (N.modulo (raw 1) 9007199254740992)
    then filter is_high_need regions else regions in
  match pick orgs (raw 0), pick pool (raw 2), pick AID_TYPES (raw 3) with
  | Some org, Some region, Some aid =>
    Some (mkDraw org region aid (1 + Z.of_N (N.modulo (raw 4) 15)))
  | _, _, _ => None
  end.

(** ** Strings *)

Lemma str_eqb_eq (a b : str) : str_eqb a b = true <-> a = b.
Proof.
  revert b; induction a as [|x a IH]; intros [|y b]; simpl;
    try (split; [discriminate | congruence]); try tauto.
  rewrite andb_true_iff, N.eqb_eq, IH.
  split; [intros [-> ->]; reflexivity | intros H; inversion H; auto].
Qed.

Lemma str_eqb_refl (a : str) : str_eqb a a = true.
Proof. apply str_eqb_eq; reflexivity. Qed.

Lemma existsb_str_eqb (x : str) (l : list str) :
  existsb (str_eqb x) l = true <-> In x l.
Proof.
  rewrite existsb_exists; split.
  - intros [y [Hy E]]. apply str_eqb_eq in E. subst; assumption.
  - intros H. exists x. split; [assumption | apply str_eqb_refl].
Qed.

Lemma distinctb_NoDup (l : list str) : distinctb l = true -> NoDup l.
Proof.
  induction l as [|x l IH]; simpl; intros H; constructor.
  - apply andb_true_iff in H. destruct H as [H _].
    intros Hin. apply existsb_str_eqb in Hin. rewrite Hin in H. discriminate.
  - apply IH. apply andb_true_iff in H. tauto.
Qed.

(** Replacing one code point with one code point acts position by
    position. *)
Lemma replace_single (a b : N) (s : str) :
  replace [a] [b] s = map (fun c => if (c =? a)%N then b else c) s.
Proof.
  unfold replace. induction s as [|c s IH]; simpl; [reflexivity|].
  rewrite andb_true_r. destruct (c =? a)%N; simpl; rewrite IH; reflexivity.
Qed.

Lemma org_id_by_char (name : str) :
  replace (utf8 "ç") (utf8 "c")
    (replace (utf8 "é") (utf8 "e")
       (replace (utf8 " ") (utf8 "-") (lower name)))
  = map org_id_char name.
Proof.
  change (utf8 "ç") with [231%N]. change (utf8 "c") with [99%N].
  change (utf8 "é") with [233%N]. change (utf8 "e") with [101%N].
  change (utf8 " ") with [32%N]. change (utf8 "-") with [45%N].
  rewrite !replace_single. unfold lower. rewrite !map_map.
  apply map_ext. intros c. unfold org_id_char. cbv zeta.
  generalize (to_lower c) as l. intros l.
  destruct (N.eqb_spec l 32) as [E32|_]; [subst l; reflexivity|].
  destruct (N.eqb_spec l 233) as [E233|_]; [subst l; reflexivity|].
  reflexivity.
Qed.

(** ** Loops over the result monad *)

Lemma getitem_middle {A} (done rest : list A) (x : A) :
  getitem (done ++ x :: rest) (length done) = Ok x.
Proof.
  unfold getitem. rewrite nth_error_app2 by lia.
  rewrite Nat.sub_diag. reflexivity.
Qed.

(** A loop that indexes [xs] by [range(len(xs))] and appends visits the
    elements of [xs] in order. *)
Lemma for_range_index_append {A B} (f : A -> B) (xs : list A) :
  forall (rest done : list A) (acc : list B),
    xs = done ++ rest ->
    for_range_from (length done) (length rest)
      (fun i acc => rbind (getitem xs i) (fun x => Ok (acc ++ [f x]))) acc
    = Ok (acc ++ map f rest).
Proof.
  induction rest as [|x rest IH]; intros done acc E; simpl.
  - rewrite app_nil_r. reflexivity.
  - rewrite E at 1. rewrite getitem_middle. simpl.
    replace (S (length done)) with (length (done ++ [x]))
      by (rewrite length_app; simpl; lia).
    rewrite IH by (rewrite <- app_assoc; exact E).
    rewrite <- app_assoc. reflexivity.
Qed.

Lemma generate_orgs_map :
  generate_orgs
  = Ok (map (fun name => Org.make (map org_id_char name) name) NGO_NAMES).
Proof.
  unfold generate_orgs, for_range.
  etransitivity.
  { exact (for_range_index_append
             (fun name =>
                Org.make
                  (replace (utf8 "ç") (utf8 "c")
                     (replace (utf8 "é") (utf8 "e")
                        (replace (utf8 " ") (utf8 "-") (lower name))))
                  name)
             NGO_NAMES NGO_NAMES [] [] eq_refl). }
  cbn [app]. apply f_equal. apply map_ext. intros name.
  rewrite org_id_by_char. reflexivity.
Qed.

(** ** The region builder *)

Lemma dict_get_In {V} (d : dict V) (k : str) (v : V) :
  dict_get d k = Some v -> In (k, v) d.
Proof.
  induction d as [|[k' v'] d IH]; simpl; [discriminate|].
  destruct (str_eqb k k') eqn:E.
  - intros H. inversion H; subst. apply str_eqb_eq in E. subst. now left.
  - intros H. right. exact (IH H).
Qed.

Lemma REGIONS_DB_display_names :
  forallb (fun kv => display_names_agree (snd kv)) REGIONS_DB = true.
Proof. vm_compute. reflexivity. Qed.

Lemma display_name_of_table_row (cid : str) rows slug pop need :
  dict_get REGIONS_DB cid = Some rows ->
  In (slug, pop, need) rows ->
  replace (utf8 "-") (utf8 " ") (title slug) = spec_display_name slug.
Proof.
  intros Hget Hin. apply dict_get_In in Hget.
  pose proof REGIONS_DB_display_names as H.
  rewrite forallb_forall in H. specialize (H _ Hget). simpl in H.
  unfold display_names_agree in H. rewrite forallb_forall in H.
  specialize (H _ Hin). simpl in H. apply str_eqb_eq in H. exact H.
Qed.

(** The inner loop appends one record per row, in order. *)
Lemma for_each_append {A B} (f : A -> B) (xs : list A) :
  forall acc : list B,
    for_each xs (fun x acc => Ok (acc ++ [f x])) acc = Ok (acc ++ map f xs).
Proof.
  induction xs as [|x xs IH]; intros acc; simpl.
  - rewrite app_nil_r. reflexivity.
  - rewrite IH, <- app_assoc. reflexivity.
Qed.

Lemma for_each_ext {A St} (xs : list A) (f g : A -> St -> result St) :
  (forall x acc, f x acc = g x acc) ->
  forall acc, for_each xs f acc = for_each xs g acc.
Proof.
  intros E. induction xs as [|x xs IH]; intros acc; simpl; [reflexivity|].
  rewrite E. destruct (g x acc); simpl; [apply IH | reflexivity].
Qed.

Lemma generate_regions_from (countries : list Country.t) :
  forall acc : list Region.t,
    for_each countries
      (fun country regions =>
         let cid := Country.id country in
         if dict_contains REGIONS_DB cid then
           rbind (dict_getitem REGIONS_DB cid)
             (fun rows =>
                for_each rows
                  (fun '(r_name, r_pop, r_need) regions =>
                     let rid := cid ++ utf8 "-" ++ r_name in
                     Ok (regions ++
                          [Region.make rid cid
                             (replace (utf8 "-") (utf8 " ") (title r_name))
                             r_pop r_need]))
                  regions)
         else Ok regions)
      acc
    = Ok (acc ++ flat_map regions_of countries).
Proof.
  induction countries as [|c cs IH]; intros acc; simpl.
  - rewrite app_nil_r. reflexivity.
  - unfold regions_of at 1. unfold dict_contains, dict_getitem.
    destruct (dict_get REGIONS_DB (Country.id c)) as [rows|]; simpl.
    + rewrite for_each_ext
        with (g := fun x acc => Ok (acc ++ [region_of_row (Country.id c) x]))
        by (intros [[r_name r_pop] r_need] regs; reflexivity).
      rewrite for_each_append. simpl. rewrite IH, <- app_assoc. reflexivity.
    + rewrite IH. reflexivity.
Qed.

Lemma generate_regions_flat (countries : list Country.t) :
  generate_regions countries = Ok (flat_map regions_of countries).
Proof. unfold generate_regions. apply generate_regions_from. Qed.

Lemma regions_of_spec (c : Country.t) : regions_of c = spec_regions_of c.
Proof.
  unfold regions_of, spec_regions_of.
  destruct (dict_get REGIONS_DB (Country.id c)) as [rows|] eqn:E;
    [|reflexivity].
  apply map_ext_in. intros [[slug pop] need] Hin.
  cbv beta iota delta [region_of_row].
  rewrite (display_name_of_table_row _ _ _ _ _ E Hin). reflexivity.
Qed.

Lemma regions_of_country_id (c : Country.t) (r : Region.t) :
  In r (regions_of c) -> Region.country_id r = Country.id c.
Proof.
  unfold regions_of.
  destruct (dict_get REGIONS_DB (Country.id c)) as [rows|]; [|intros []].
  intros H. apply in_map_iff in H. destruct H as [[[n p0] d] [<- _]].
  reflexivity.
Qed.

Lemma length_regions_of (c : Country.t) : length (regions_of c) = row_count c.
Proof.
  unfold regions_of, row_count.
  destruct (dict_get REGIONS_DB (Country.id c)); [apply length_map|reflexivity].
Qed.

Lemma row_count_absent (c : Country.t) : in_regions_db c = false -> row_count c = 0.
Proof.
  unfold in_regions_db, dict_contains, row_count.
  destruct (dict_get REGIONS_DB (Country.id c)); [discriminate|reflexivity].
Qed.

Lemma sum_row_count_present (countries : list Country.t) :
  list_sum (map row_count (filter in_regions_db countries))
  = list_sum (map row_count countries).
Proof.
  induction countries as [|c cs IH]; simpl; [reflexivity|].
  destruct (in_regions_db c) eqn:E; simpl.
  - rewrite IH. reflexivity.
  - rewrite (row_count_absent _ E), IH. reflexivity.
Qed.

(** ** The random primitives *)

Lemma bind_Ok {A B} (m : Random.M A) (k : A -> Random.M B) s b s2 :
  Random.bind m k s = Ok (b, s2) ->
  exists a s1, m s = Ok (a, s1) /\ k a s1 = Ok (b, s2).
Proof.
  unfold Random.bind. destruct (m s) as [[a s1]|e]; [|discriminate].
  intros H. exists a, s1. split; [reflexivity | exact H].
Qed.

(** Splits a successful [x <- m ;; k] in [H] into the run of [m] and the
    run of the continuation. *)
Ltac bind_step H x s E :=
  apply bind_Ok in H; destruct H as [x [s [E H]]].

Lemma choice_In {A} (seq : list A) s x s' :
  Random.choice seq s = Ok (x, s') -> In x seq.
Proof.
  unfold Random.choice. destruct seq as [|y seq]; [discriminate|].
  intros H. bind_step H i s1 Hi.
  unfold Random.lift, getitem in H.
  destruct (nth_error (y :: seq) (N.to_nat i)) as [z|] eqn:E; [|discriminate].
  inversion H; subst. exact (nth_error_In _ _ E).
Qed.

Lemma choice_total {A} (seq : list A) s :
  seq <> [] -> exists x s', Random.choice seq s = Ok (x, s').
Proof.
  intros Hne. unfold Random.choice. destruct seq as [|y seq]; [congruence|].
  unfold Random.randbelow, Random.next_raw, Random.bind, Random.ret,
    Random.lift, getitem.
  set (n := N.of_nat (length (y :: seq))).
  assert (Hlt : N.to_nat (Random.tape s (Random.pos s) mod n)
                < length (y :: seq)).
  { assert (Hn : n <> 0%N) by (unfold n; simpl; lia).
    pose proof (N.mod_upper_bound (Random.tape s (Random.pos s)) n Hn) as Hm.
    revert Hm. generalize (Random.tape s (Random.pos s) mod n)%N.
    intros m Hm. unfold n in Hm. lia. }
  apply nth_error_Some in Hlt.
  destruct (nth_error (y :: seq) _) as [z|]; [|congruence].
  eexists _, _. reflexivity.
Qed.

Lemma randint_range (a b : Z) s c s' :
  Random.randint a b s = Ok (c, s') -> (a <= c <= b)%Z.
Proof.
  unfold Random.randint.
  destruct (Z.leb_spec (b - a + 1) 0) as [_|Hpos]; [discriminate|].
  unfold Random.randbelow, Random.next_raw, Random.bind, Random.ret.
  intros H. inversion H; subst.
  assert (Hn : Z.to_N (b - a + 1) <> 0%N) by lia.
  pose proof (N.mod_upper_bound (Random.tape s (Random.pos s)) _ Hn) as Hm.
  revert Hm. generalize (Random.tape s (Random.pos s) mod Z.to_N (b - a + 1))%N.
  intros m Hm. lia.
Qed.

Lemma randint_total (a b : Z) s :
  (a <= b)%Z -> exists c s', Random.randint a b s = Ok (c, s').
Proof.
  intros H. unfold Random.randint.
  destruct (Z.leb_spec (b - a + 1) 0); [lia|].
  eexists _, _. reflexivity.
Qed.

Lemma random_total s : exists u s', Random.random s = Ok (u, s').
Proof. eexists _, _. reflexivity. Qed.

(** Every element of a sequence is the choice of some raw number, both
    outcomes of the comparison with 0.7 occur, and every count of the range
    is drawn by some raw number: the tape under-approximates nothing. *)
Lemma choice_reaches {A} (seq : list A) (x : A) :
  In x seq ->
  exists r, forall s,
      Random.tape s (Random.pos s) = r ->
      Random.choice seq s
      = Ok (x, Random.make (Random.tape s) (S (Random.pos s))).
Proof.
  intros Hin. apply In_nth_error in Hin. destruct Hin as [i Hi].
  assert (Hlt : i < length seq) by (apply nth_error_Some; congruence).
  exists (N.of_nat i). intros s Hs.
  unfold Random.choice. destruct seq as [|y seq]; [simpl in Hlt; lia|].
  unfold Random.randbelow, Random.next_raw, Random.bind, Random.ret,
    Random.lift, getitem.
  rewrite Hs, N.mod_small by lia. rewrite Nat2N.id, Hi. reflexivity.
Qed.

Lemma lt_0_7_both :
  (exists s u s', Random.random s = Ok (u, s') /\ Random.lt_0_7 u = true)
  /\ (exists s u s', Random.random s = Ok (u, s') /\ Random.lt_0_7 u = false).
Proof.
  split.
  - exists (Random.make (fun _ => 0%N) 0). eexists. eexists.
    split; reflexivity.
  - exists (Random.make (fun _ => 9007199254740991%N) 0). eexists. eexists.
    split; reflexivity.
Qed.

Lemma randint_reaches (a b c : Z) :
  (a <= c <= b)%Z ->
  exists r, forall s,
      Random.tape s (Random.pos s) = r ->
      Random.randint a b s
      = Ok (c, Random.make (Random.tape s) (S (Random.pos s))).
Proof.
  intros Hc. exists (Z.to_N (c - a)). intros s Hs.
  unfold Random.randint. destruct (Z.leb_spec (b - a + 1) 0) as [Hle|_]; [lia|].
  unfold Random.randbelow, Random.next_raw, Random.bind, Random.ret.
  rewrite Hs, N.mod_small by lia. do 2 f_equal. lia.
Qed.

Lemma for_times_inv {St} (I : nat -> St -> Prop) (body : St -> Random.M St) :
  (forall k acc s acc' s',
      I k acc -> body acc s = Ok (acc', s') -> I (S k) acc') ->
  forall n k acc s acc' s',
    I k acc -> Random.for_times n body acc s = Ok (acc', s') ->
    I (n + k) acc'.
Proof.
  intros Hstep. induction n as [|n IH]; intros k acc s acc' s' HI H; simpl in *.
  - inversion H; subst. exact HI.
  - bind_step H a s1 Hb.
    replace (S (n + k)) with (n + S k) by lia.
    eapply IH; [|exact H]. eapply Hstep; eassumption.
Qed.

Lemma for_times_total {St} (body : St -> Random.M St) :
  (forall acc s, exists acc' s', body acc s = Ok (acc', s')) ->
  forall n acc s, exists acc' s', Random.for_times n body acc s = Ok (acc', s').
Proof.
  intros Hbody. induction n as [|n IH]; intros acc s; simpl.
  - eexists _, _. reflexivity.
  - destruct (Hbody acc s) as [a [s1 E]]. unfold Random.bind. rewrite E.
    apply IH.
Qed.

(** ** Accumulate or append *)

Lemma same_triple_key (o r a : str) (e : Edge.t) :
  same_triple o r a e = true <-> edge_key e = (o, r, a).
Proof.
  unfold same_triple, edge_key.
  rewrite !andb_true_iff, !str_eqb_eq.
  split; [intros [[-> ->] ->]; reflexivity | intros H; inversion H; auto].
Qed.

Lemma find_index_Some {A} (p : A -> bool) (l : list A) (i : nat) :
  find_index p l = Some i ->
  exists l1 x l2,
    l = l1 ++ x :: l2 /\ length l1 = i /\ p x = true
    /\ forall y, In y l1 -> p y = false.
Proof.
  revert i. induction l as [|x l IH]; intros i; simpl; [discriminate|].
  destruct (p x) eqn:Hp.
  - intros H. inversion H; subst. exists [], x, l. simpl. intuition.
  - destruct (find_index p l) as [j|]; [|discriminate].
    intros H. inversion H; subst.
    destruct (IH j eq_refl) as [l1 [y [l2 [E [Hlen [Hy Hl1]]]]]].
    exists (x :: l1), y, l2. subst l. simpl. repeat split; auto.
    intros z [<-|Hz]; auto.
Qed.

Lemma find_index_None {A} (p : A -> bool) (l : list A) :
  find_index p l = None -> forall x, In x l -> p x = false.
Proof.
  induction l as [|x l IH]; simpl; [intros _ y []|].
  destruct (p x) eqn:Hp; [discriminate|].
  destruct (find_index p l); [discriminate|].
  intros _ y [<-|Hy]; auto.
Qed.

Lemma find_index_first {A} (p : A -> bool) (l1 : list A) x l2 :
  (forall y, In y l1 -> p y = false) -> p x = true ->
  find_index p (l1 ++ x :: l2) = Some (length l1).
Proof.
  induction l1 as [|y l1 IH]; intros Hl1 Hx; simpl.
  - rewrite Hx. reflexivity.
  - rewrite (Hl1 y (or_introl eq_refl)).
    rewrite IH by (intros; auto using in_cons). reflexivity.
Qed.

Lemma update_at_middle {A} (f : A -> A) (l1 : list A) x l2 :
  update_at (length l1) f (l1 ++ x :: l2) = l1 ++ f x :: l2.
Proof. induction l1 as [|y l1 IH]; simpl; [|rewrite IH]; reflexivity. Qed.

Lemma edge_key_add_count (c : Z) (e : Edge.t) :
  edge_key (add_count c e) = edge_key e.
Proof. reflexivity. Qed.

(** The two outcomes of lines 108 to 119. *)
Lemma record_projects_cases edges org region aid count :
  (exists l1 e l2,
      edges = l1 ++ e :: l2
      /\ edge_key e = (Org.id org, Region.id region, aid)
      /\ record_projects edges org region aid count
         = l1 ++ add_count count e :: l2)
  \/ (~ In (Org.id org, Region.id region, aid) (map edge_key edges)
      /\ record_projects edges org region aid count
         = edges ++ [Edge.make (Org.id org) (Region.id region) aid count]).
Proof.
  unfold record_projects.
  destruct (find_index _ edges) as [i|] eqn:E.
  - left. apply find_index_Some in E.
    destruct E as [l1 [e [l2 [-> [<- [He _]]]]]].
    exists l1, e, l2. rewrite update_at_middle.
    apply same_triple_key in He. auto.
  - right. split; [|reflexivity].
    intros Hin. apply in_map_iff in Hin. destruct Hin as [e [Hk He]].
    apply same_triple_key in Hk.
    rewrite (find_index_None _ _ E e He) in Hk. discriminate.
Qed.

Lemma record_projects_existing l1 e l2 org region count :
  NoDup (map edge_key (l1 ++ e :: l2)) ->
  Org.id org = Edge.org_id e -> Region.id region = Edge.region_id e ->
  record_projects (l1 ++ e :: l2) org region (Edge.aid_type e) count
  = l1 ++ add_count count e :: l2.
Proof.
  intros Hnd Ho Hr. unfold record_projects. rewrite Ho, Hr.
  rewrite find_index_first.
  - apply update_at_middle.
  - intros y Hy. destruct (same_triple _ _ _ y) eqn:Hs; [|reflexivity].
    apply same_triple_key in Hs. exfalso.
    rewrite map_app in Hnd. simpl in Hnd.
    apply NoDup_remove_2 in Hnd. apply Hnd. apply in_or_app. left.
    change (Edge.org_id e, Edge.region_id e, Edge.aid_type e)
      with (edge_key e) in Hs.
    rewrite <- Hs. apply in_map. exact Hy.
  - apply same_triple_key. reflexivity.
Qed.

Lemma record_projects_inv orgs regions n edges org region aid count :
  edges_inv orgs regions n edges ->
  In org orgs -> In region regions -> In aid AID_TYPES -> (1 <= count)%Z ->
  edges_inv orgs regions (S n)
            (record_projects edges org region aid count).
Proof.
  intros [Hnd [Hok [Hle Hge]]] Ho Hr Ha Hc.
  destruct (record_projects_cases edges org region aid count)
    as [[l1 [e [l2 [E [Hk ->]]]]] | [Hnew ->]].
  - subst edges. repeat split.
    + rewrite map_app in *. simpl in *. rewrite edge_key_add_count. exact Hnd.
    + apply Forall_app in Hok. destruct Hok as [H1 H2].
      inversion H2 as [|? ? [Hc' Hrefs] H2']; subst.
      apply Forall_app. split; [exact H1|]. constructor; [|exact H2'].
      split; [simpl; lia | exact Hrefs].
    + rewrite length_app in *. simpl in *. lia.
    + intros _. rewrite length_app. simpl. lia.
  - repeat split.
    + rewrite map_app. simpl. apply NoDup_app.
      * exact Hnd.
      * constructor; [intros [] | constructor].
      * intros k Hin [<-|[]]. exact (Hnew Hin).
    + apply Forall_app. split; [exact Hok|]. constructor; [|constructor].
      repeat split; simpl; auto using in_map.
    + rewrite length_app. simpl. lia.
    + intros _. rewrite length_app. simpl. lia.
Qed.

Lemma generate_edges_unfold orgs regions :
  generate_edges orgs regions
  = Random.for_times TOTAL_PROJECTS
      (edge_body orgs regions (filter is_high_need regions)) [].
Proof. reflexivity. Qed.

Lemma edge_body_spec orgs regions edges s edges' s' :
  edge_body orgs regions (filter is_high_need regions) edges s
  = Ok (edges', s') ->
  exists org region aid count,
    In org orgs /\ In region regions /\ In aid AID_TYPES
    /\ (1 <= count <= 15)%Z
    /\ edges' = record_projects edges org region aid count.
Proof.
  unfold edge_body. intros H.
  bind_step H org s1 Horg. bind_step H u s2 Hu.
  bind_step H region s3 Hreg. bind_step H aid s4 Haid.
  bind_step H count s5 Hcount.
  inversion H; subst.
  exists org, region, aid, count. repeat split.
  - eapply choice_In; exact Horg.
  - destruct (Random.lt_0_7 u).
    + apply choice_In in Hreg. apply filter_In in Hreg. tauto.
    + eapply choice_In; exact Hreg.
  - eapply choice_In; exact Haid.
  - apply randint_range in Hcount. lia.
  - apply randint_range in Hcount. lia.
Qed.

Lemma edge_body_total orgs regions edges s :
  orgs <> [] -> filter is_high_need regions <> [] ->
  exists edges' s',
    edge_body orgs regions (filter is_high_need regions) edges s
    = Ok (edges', s').
Proof.
  intros Ho Hh. unfold edge_body.
  assert (Hr : regions <> []) by (intros ->; apply Hh; reflexivity).
  destruct (choice_total orgs s Ho) as [org [s1 E1]].
  destruct (random_total s1) as [u [s2 E2]].
  assert (E3 : exists region s3,
             (if Random.lt_0_7 u
              then Random.choice (filter is_high_need regions)
              else Random.choice regions) s2 = Ok (region, s3)).
  { destruct (Random.lt_0_7 u); apply choice_total; assumption. }
  destruct E3 as [region [s3 E3]].
  assert (Ha : AID_TYPES <> []) by discriminate.
  destruct (choice_total AID_TYPES s3 Ha) as [aid [s4 E4]].
  destruct (randint_total 1 15 s4 ltac:(lia)) as [count [s5 E5]].
  unfold Random.bind at 1. rewrite E1.
  unfold Random.bind at 1. rewrite E2.
  unfold Random.bind at 1. rewrite E3.
  unfold Random.bind at 1. rewrite E4.
  unfold Random.bind at 1. rewrite E5.
  eexists _, _. reflexivity.
Qed.

Lemma edge_loop_inv orgs regions n s es s' :
  Random.for_times n (edge_body orgs regions (filter is_high_need regions))
                   [] s = Ok (es, s') ->
  edges_inv orgs regions n es.
Proof.
  intros H. rewrite <- (Nat.add_0_r n).
  eapply (for_times_inv (edges_inv orgs regions)); [| |exact H].
  - intros k acc s0 acc' s0' HI Hb.
    apply edge_body_spec in Hb.
    destruct Hb as [org [region [aid [count [Ho [Hr [Ha [Hc ->]]]]]]]].
    apply record_projects_inv; auto; lia.
  - repeat split; simpl; [constructor | constructor | lia | lia].
Qed.

Lemma generate_edges_inv orgs regions s es s' :
  generate_edges orgs regions s = Ok (es, s') ->
  edges_inv orgs regions TOTAL_PROJECTS es.
Proof. rewrite generate_edges_unfold. apply edge_loop_inv. Qed.

Lemma generate_edges_total orgs regions s :
  orgs <> [] -> filter is_high_need regions <> [] ->
  exists es s', generate_edges orgs regions s = Ok (es, s').
Proof.
  intros Ho Hh. rewrite generate_edges_unfold.
  apply for_times_total. intros acc s0. apply edge_body_total; assumption.
Qed.

Lemma demo_run :
  generate_edges demo_orgs demo_regions demo_rng = Ok (demo_edges, demo_end).
Proof. vm_compute. reflexivity. Qed.

Lemma zero_run :
  main zero_rng = Ok (zero_dataset, Random.make (fun _ => 0%N) 900).
Proof. vm_compute. reflexivity. Qed.

Lemma one_run :
  main one_rng = Ok (one_dataset, Random.make (fun _ => 1%N) 900).
Proof. vm_compute. reflexivity. Qed.

Lemma demo_main_run : main demo_rng = Ok (demo_dataset, demo_end).
Proof. vm_compute. reflexivity. Qed.

Lemma Ok_inj {A} (a b : A) : Ok a = Ok b -> a = b.
Proof. intros H. injection H as H. exact H. Qed.

Lemma Ok_pair_inj {A B} (a a' : A) (b b' : B) :
  Ok (a, b) = Ok (a', b') -> a = a' /\ b = b'.
Proof. intros H. injection H as Ha Hb. split; assumption. Qed.

Lemma main_Ok rng d rng' :
  main rng = Ok (d, rng') ->
  countries d = COUNTRIES
  /\ orgs d = map (fun name => Org.make (map org_id_char name) name) NGO_NAMES
  /\ regions d = flat_map regions_of COUNTRIES
  /\ generate_edges (orgs d) (regions d) rng = Ok (edges d, rng').
Proof.
  unfold main. cbv zeta.
  rewrite generate_orgs_map, generate_regions_flat.
  unfold Random.bind, Random.lift, Random.ret.
  destruct (generate_edges _ _ rng) as [[es s]|e] eqn:E; [|discriminate].
  intros H. apply Ok_pair_inj in H. destruct H as [<- <-].
  cbn [countries orgs regions edges]. repeat split; try reflexivity.
  exact E.
Qed.

Lemma seeded_high_need_regions :
  filter is_high_need (flat_map regions_of COUNTRIES) <> [].
Proof. intros H. vm_compute in H. discriminate H. Qed.

Lemma main_total rng : exists d rng', main rng = Ok (d, rng').
Proof.
  unfold main. cbv zeta. rewrite generate_orgs_map, generate_regions_flat.
  unfold Random.bind, Random.lift, Random.ret.
  destruct (generate_edges_total
              (map (fun name => Org.make (map org_id_char name) name)
                   NGO_NAMES)
              (flat_map regions_of COUNTRIES) rng)
    as [es [s E]].
  - unfold NGO_NAMES. cbn [map]. discriminate.
  - exact seeded_high_need_regions.
  - rewrite E. eexists. eexists. reflexivity.
Qed.

(** ** Replaying draws *)

Lemma key_eqb_eq (a b : str * str * str) : key_eqb a b = true <-> a = b.
Proof.
  destruct a as [[a1 a2] a3], b as [[b1 b2] b3]. unfold key_eqb.
  rewrite !andb_true_iff, !str_eqb_eq.
  split; [intros [[-> ->] ->]; reflexivity | intros H; inversion H; auto].
Qed.

Lemma key_eqb_refl (a : str * str * str) : key_eqb a a = true.
Proof. apply key_eqb_eq. reflexivity. Qed.

Lemma existsb_key_eqb k ks : existsb (key_eqb k) ks = true <-> In k ks.
Proof.
  rewrite existsb_exists. split.
  - intros [y [Hy E]]. apply key_eqb_eq in E. subst. exact Hy.
  - intros H. exists k. split; [exact H | apply key_eqb_refl].
Qed.

Lemma tally_app k l1 l2 : tally k (l1 ++ l2) = (tally k l1 + tally k l2)%Z.
Proof.
  induction l1 as [|e l1 IH]; cbn [tally app]; [reflexivity|].
  destruct (key_eqb (edge_key e) k); rewrite IH; lia.
Qed.

Lemma drawn_app k l1 l2 : drawn k (l1 ++ l2) = (drawn k l1 + drawn k l2)%Z.
Proof.
  induction l1 as [|d l1 IH]; cbn [drawn app]; [reflexivity|].
  destruct (key_eqb (draw_key d) k); rewrite IH; lia.
Qed.


Lemma record_projects_keys edges org region aid count :
  map edge_key (record_projects edges org region aid count)
  = add_key (map edge_key edges) (Org.id org, Region.id region, aid).
Proof.
  unfold add_key.
  destruct (record_projects_cases edges org region aid count)
    as [[l1 [e [l2 [E [Hk ->]]]]] | [Hnew ->]].
  - subst edges.
    assert (Hin : In (Org.id org, Region.id region, aid)
                     (map edge_key (l1 ++ e :: l2))).
    { rewrite <- Hk. apply in_map. apply in_or_app. right. now left. }
    apply existsb_key_eqb in Hin. rewrite Hin.
    rewrite !map_app. reflexivity.
  - destruct (existsb _ _) eqn:E.
    + apply existsb_key_eqb in E. contradiction.
    + rewrite map_app. reflexivity.
Qed.

Lemma record_projects_tally k edges org region aid count :
  tally k (record_projects edges org region aid count)
  = (tally k edges
     + if key_eqb (Org.id org, Region.id region, aid) k then count else 0)%Z.
Proof.
  destruct (record_projects_cases edges org region aid count)
    as [[l1 [e [l2 [E [Hk ->]]]]] | [Hnew ->]].
  - subst edges. rewrite !tally_app. cbn [tally].
    rewrite edge_key_add_count, Hk.
    destruct (key_eqb _ k); cbn [add_count Edge.project_count]; lia.
  - rewrite tally_app. cbn [tally]. unfold edge_key at 1.
    cbn [Edge.org_id Edge.region_id Edge.aid_type Edge.project_count].
    destruct (key_eqb _ k); lia.
Qed.


Lemma replay_snoc draws d :
  replay (draws ++ [d])
  = record_projects (replay draws) (draw_org d) (draw_region d) (draw_aid d)
                    (draw_count d).
Proof. unfold replay. rewrite fold_left_app. reflexivity. Qed.

Lemma edge_loop_replay orgs regions n s es s' :
  Random.for_times n (edge_body orgs regions (filter is_high_need regions))
                   [] s = Ok (es, s') ->
  exists draws,
    length draws = n /\ Forall (valid_draw orgs regions) draws
    /\ es = replay draws.
Proof.
  intros H. rewrite <- (Nat.add_0_r n).
  eapply (for_times_inv
            (fun k acc => exists draws,
                 length draws = k /\ Forall (valid_draw orgs regions) draws
                 /\ acc = replay draws)); [| |exact H].
  - intros k acc s0 acc' s0' [draws [Hlen [Hv ->]]] Hb.
    apply edge_body_spec in Hb.
    destruct Hb as [org [region [aid [count [Ho [Hr [Ha [Hc ->]]]]]]]].
    exists (draws ++ [mkDraw org region aid count]).
    split; [rewrite last_length; congruence|]. split.
    + apply Forall_app. split; [exact Hv|]. constructor; [|constructor].
      unfold valid_draw. simpl. auto.
    + rewrite replay_snoc. reflexivity.
  - exists []. repeat split. constructor.
Qed.

Lemma replay_keys draws :
  map edge_key (replay draws) = fold_left add_key (map draw_key draws) [].
Proof.
  induction draws as [|d draws IH] using rev_ind; [reflexivity|].
  rewrite replay_snoc, record_projects_keys, IH.
  rewrite map_app, fold_left_app. reflexivity.
Qed.

Lemma add_key_NoDup ks k : NoDup ks -> NoDup (add_key ks k).
Proof.
  intros H. unfold add_key. destruct (existsb (key_eqb k) ks) eqn:E; [exact H|].
  apply NoDup_app; [exact H | constructor; [intros [] | constructor] |].
  intros x Hx [<-|[]]. apply existsb_key_eqb in Hx. congruence.
Qed.

Lemma replay_NoDup draws : NoDup (map edge_key (replay draws)).
Proof.
  induction draws as [|d draws IH] using rev_ind; [constructor|].
  rewrite replay_snoc, record_projects_keys. apply add_key_NoDup. exact IH.
Qed.

Lemma replay_tally k draws : tally k (replay draws) = drawn k draws.
Proof.
  induction draws as [|d draws IH] using rev_ind; [reflexivity|].
  rewrite replay_snoc, record_projects_tally, IH, drawn_app.
  cbn [drawn]. unfold draw_key. destruct (key_eqb _ k); lia.
Qed.

Lemma tally_absent k es : ~ In k (map edge_key es) -> tally k es = 0%Z.
Proof.
  induction es as [|e es IH]; cbn [tally map]; [reflexivity|].
  intros H. destruct (key_eqb (edge_key e) k) eqn:E.
  - apply key_eqb_eq in E. exfalso. apply H. left. exact E.
  - apply IH. intros Hin. apply H. right. exact Hin.
Qed.

Lemma tally_unique es e :
  NoDup (map edge_key es) -> In e es ->
  tally (edge_key e) es = Edge.project_count e.
Proof.
  induction es as [|x es IH]; intros Hnd Hin; [destruct Hin|].
  cbn [map] in Hnd. apply NoDup_cons_iff in Hnd. destruct Hnd as [Hx Hnd].
  cbn [tally]. destruct Hin as [->|Hin].
  - rewrite key_eqb_refl, (tally_absent _ _ Hx). lia.
  - destruct (key_eqb (edge_key x) (edge_key e)) eqn:E.
    + apply key_eqb_eq in E. exfalso. apply Hx. rewrite E.
      apply in_map. exact Hin.
    + apply IH; assumption.
Qed.

Lemma drawn_positive k draws orgs regions :
  Forall (valid_draw orgs regions) draws ->
  In k (map draw_key draws) -> (1 <= drawn k draws)%Z.
Proof.
  intros Hv. induction Hv as [|d ds Hd Hv IH]; cbn [map drawn]; [intros []|].
  assert (Hnn : In k (map draw_key ds) \/ ~ In k (map draw_key ds)).
  { destruct (existsb (key_eqb k) (map draw_key ds)) eqn:E.
    - left. apply existsb_key_eqb. exact E.
    - right. intros Hin. apply existsb_key_eqb in Hin. congruence. }
  assert (H0 : (0 <= drawn k ds)%Z).
  { clear -Hv. induction Hv as [|d ds Hd Hv IH]; cbn [drawn]; [lia|].
    destruct Hd as [_ [_ [_ Hc]]]. destruct (key_eqb _ k); lia. }
  destruct Hd as [_ [_ [_ Hc]]].
  intros [<-|Hin].
  - rewrite key_eqb_refl. lia.
  - specialize (IH Hin). destruct (key_eqb _ k); lia.
Qed.


Lemma keys_in_product orgs regions es :
  Forall (edge_ok orgs regions) es ->
  incl (map edge_key es)
       (list_prod (list_prod (map Org.id orgs) (map Region.id regions))
                  AID_TYPES).
Proof.
  intros Hok k Hk. apply in_map_iff in Hk. destruct Hk as [e [<- He]].
  rewrite Forall_forall in Hok. destruct (Hok e He) as [_ [Ho [Hr Ha]]].
  unfold edge_key. apply in_prod; [apply in_prod|]; assumption.
Qed.

Lemma fold_add_key_covers ks :
  forall acc k, In k (acc ++ ks) -> In k (fold_left add_key ks acc).
Proof.
  induction ks as [|x ks IH]; intros acc k Hk; cbn [fold_left].
  - rewrite app_nil_r in Hk. exact Hk.
  - apply IH. unfold add_key.
    apply in_app_or in Hk. destruct Hk as [Hk|[<-|Hk]].
    + apply in_or_app. left.
      destruct (existsb _ acc); [|apply in_or_app; left]; exact Hk.
    + apply in_or_app. left.
      destruct (existsb (key_eqb x) acc) eqn:E.
      * apply existsb_key_eqb. exact E.
      * apply in_or_app. right. now left.
    + apply in_or_app. right. exact Hk.
Qed.

Lemma fold_add_key_from ks :
  forall acc k, In k (fold_left add_key ks acc) -> In k acc \/ In k ks.
Proof.
  induction ks as [|x ks IH]; intros acc k Hk; cbn [fold_left] in Hk.
  - left. exact Hk.
  - apply IH in Hk. destruct Hk as [Hk|Hk]; [|right; right; exact Hk].
    unfold add_key in Hk. destruct (existsb _ acc); [left; exact Hk|].
    apply in_app_or in Hk. destruct Hk as [Hk|[<-|[]]];
      [left; exact Hk | right; left; reflexivity].
Qed.

Lemma replay_covers draws d :
  In d draws -> exists e, In e (replay draws) /\ edge_key e = draw_key d.
Proof.
  intros Hd.
  assert (Hin : In (draw_key d) (map edge_key (replay draws))).
  { rewrite replay_keys. apply fold_add_key_covers. cbn [app].
    apply in_map. exact Hd. }
  apply in_map_iff in Hin. destruct Hin as [e [He Hin]]. exists e. auto.
Qed.

Lemma replay_keys_drawn draws e :
  In e (replay draws) -> In (edge_key e) (map draw_key draws).
Proof.
  intros He. apply (in_map edge_key) in He. rewrite replay_keys in He.
  apply fold_add_key_from in He. destruct He as [[]|He]. exact He.
Qed.

Lemma replay_count_drawn draws e :
  In e (replay draws) -> Edge.project_count e = drawn (edge_key e) draws.
Proof.
  intros He. rewrite <- replay_tally. symmetry.
  apply tally_unique; [apply replay_NoDup | exact He].
Qed.

(** ** The draws of a run, read off the tape *)

Lemma choice_pick {A} (seq : list A) s x s' :
  Random.choice seq s = Ok (x, s') ->
  pick seq (Random.tape s (Random.pos s)) = Some x /\ s' = advance 1 s.
Proof.
  unfold Random.choice, pick. destruct seq as [|y seq]; [discriminate|].
  unfold Random.randbelow, Random.next_raw, Random.bind, Random.ret,
    Random.lift, getitem.
  destruct (nth_error (y :: seq) _) as [z|]; [|discriminate].
  intros H. apply Ok_pair_inj in H. destruct H as [<- <-].
  split; reflexivity.
Qed.

Lemma draw_of_first orgs regions s :
  draw_of orgs regions s 0
  = let raw k := Random.tape s (k + Random.pos s) in
    let pool :=
      if Random.lt_0_7 (N.modulo (raw 1) 9007199254740992)
      then filter is_high_need regions else regions in
    match pick orgs (raw 0), pick pool (raw 2), pick AID_TYPES (raw 3) with
    | Some org, Some region, Some aid =>
      Some (mkDraw org region aid (1 + Z.of_N (N.modulo (raw 4) 15)))
    | _, _, _ => None
    end.
Proof.
  unfold draw_of. cbv zeta.
  replace (Random.pos s + 5 * 0 + 0) with (0 + Random.pos s) by lia.
  replace (Random.pos s + 5 * 0 + 1) with (1 + Random.pos s) by lia.
  replace (Random.pos s + 5 * 0 + 2) with (2 + Random.pos s) by lia.
  replace (Random.pos s + 5 * 0 + 3) with (3 + Random.pos s) by lia.
  replace (Random.pos s + 5 * 0 + 4) with (4 + Random.pos s) by lia.
  reflexivity.
Qed.

Lemma draw_of_advance orgs regions s i :
  draw_of orgs regions (advance 5 s) i = draw_of orgs regions s (S i).
Proof.
  unfold draw_of, advance. cbn [Random.tape Random.pos]. cbv zeta.
  replace (5 + Random.pos s + 5 * i + 0)
    with (Random.pos s + 5 * S i + 0) by lia.
  replace (5 + Random.pos s + 5 * i + 1)
    with (Random.pos s + 5 * S i + 1) by lia.
  replace (5 + Random.pos s + 5 * i + 2)
    with (Random.pos s + 5 * S i + 2) by lia.
  replace (5 + Random.pos s + 5 * i + 3)
    with (Random.pos s + 5 * S i + 3) by lia.
  replace (5 + Random.pos s + 5 * i + 4)
    with (Random.pos s + 5 * S i + 4) by lia.
  reflexivity.
Qed.

(** A successful iteration records the draw that the tape holds for it and
    leaves the generator five raw numbers further. *)
Lemma edge_body_draw orgs regions edges s edges' s' :
  edge_body orgs regions (filter is_high_need regions) edges s
  = Ok (edges', s') ->
  exists d,
    draw_of orgs regions s 0 = Some d
    /\ edges' = record_projects edges (draw_org d) (draw_region d)
                                (draw_aid d) (draw_count d)
    /\ s' = advance 5 s.
Proof.
  unfold edge_body. intros H.
  bind_step H org s1 Horg. apply choice_pick in Horg.
  destruct Horg as [Porg ->].
  bind_step H u s2 Hu.
  change (Random.random (advance 1 s))
    with (Ok ((Random.tape s (1 + Random.pos s) mod 9007199254740992)%N,
              advance 2 s)) in Hu.
  apply Ok_pair_inj in Hu. destruct Hu as [<- <-].
  bind_step H region s3 Hreg.
  assert (Preg : pick (if Random.lt_0_7
                            (Random.tape s (1 + Random.pos s)
                             mod 9007199254740992)%N
                       then filter is_high_need regions else regions)
                      (Random.tape s (2 + Random.pos s)) = Some region
                 /\ s3 = advance 3 s).
  { destruct (Random.lt_0_7 _); apply choice_pick in Hreg; exact Hreg. }
  destruct Preg as [Preg ->].
  bind_step H aid s4 Haid. apply choice_pick in Haid.
  destruct Haid as [Paid ->].
  bind_step H count s5 Hcount.
  change (Random.randint 1 15 (advance 1 (advance 3 s)))
    with (Ok ((1 + Z.of_N (Random.tape s (4 + Random.pos s) mod 15))%Z,
              advance 5 s)) in Hcount.
  apply Ok_pair_inj in Hcount. destruct Hcount as [<- <-].
  unfold Random.ret in H. apply Ok_pair_inj in H. destruct H as [<- <-].
  rewrite draw_of_first. cbv beta zeta.
  change (Random.tape s (0 + Random.pos s))
    with (Random.tape s (Random.pos s)).
  rewrite Porg, Preg.
  change (Random.tape (advance 3 s) (Random.pos (advance 3 s)))
    with (Random.tape s (3 + Random.pos s)) in Paid.
  rewrite Paid.
  eexists. split; [reflexivity|]. split; reflexivity.
Qed.

Lemma edge_loop_draws orgs regions :
  forall n acc s es s',
    Random.for_times n
      (edge_body orgs regions (filter is_high_need regions)) acc s
    = Ok (es, s') ->
    exists draws,
      map Some draws = map (draw_of orgs regions s) (seq 0 n)
      /\ es = fold_left
                (fun edges d =>
                   record_projects edges (draw_org d) (draw_region d)
                                   (draw_aid d) (draw_count d))
                draws acc.
Proof.
  induction n as [|n IH]; intros acc s es s' H.
  - cbn [Random.for_times] in H. unfold Random.ret in H.
    apply Ok_pair_inj in H. destruct H as [<- _].
    exists []. split; reflexivity.
  - cbn [Random.for_times] in H. bind_step H a s1 Hb.
    apply edge_body_draw in Hb. destruct Hb as [d [Hd [-> ->]]].
    apply IH in H. destruct H as [draws [Hdraws ->]].
    exists (d :: draws). split; [|reflexivity].
    cbn [seq map]. rewrite Hd, Hdraws. f_equal.
    rewrite <- seq_shift, map_map. apply map_ext.
    intros i. apply draw_of_advance.
Qed.

(** ** The claims *)

(** C1. After [generate_edges] returns, the edges of the returned list have
    pairwise different [(org_id, region_id, aid_type)] triples, as has the
    list after any number of iterations of the loop.  The list accounts for
    the [TOTAL_PROJECTS] draws the tape holds for the run: every drawn triple
    has its edge, every edge has a drawn triple, and the [project_count] of
    an edge is the sum of the counts drawn for its triple.  A draw whose
    triple is that of an edge already in the list adds its count to that
    edge's [project_count], the list keeping its length and its other
    edges. *)
Theorem generate_edges_one_edge_per_triple orgs regions rng es rng' :
  generate_edges orgs regions rng = Ok (es, rng') ->
  NoDup (map edge_key es)
  /\ (exists draws,
        map Some draws
        = map (draw_of orgs regions rng) (seq 0 TOTAL_PROJECTS)
        /\ (forall d, In d draws ->
                      exists e, In e es /\ edge_key e = draw_key d)
        /\ (forall e, In e es ->
                      In (edge_key e) (map draw_key draws)
                      /\ Edge.project_count e = drawn (edge_key e) draws))
  /\ (forall n edges s s',
        Random.for_times n
          (edge_body orgs regions (filter is_high_need regions)) [] s
        = Ok (edges, s') ->
        NoDup (map edge_key edges))
  /\ forall edges l1 e l2 org region count,
      edges = l1 ++ e :: l2 ->
      NoDup (map edge_key edges) ->
      Org.id org = Edge.org_id e ->
      Region.id region = Edge.region_id e ->
      record_projects edges org region (Edge.aid_type e) count
      = l1 ++ Edge.make (Edge.org_id e) (Edge.region_id e) (Edge.aid_type e)
                        (Edge.project_count e + count) :: l2.
Proof.
  intros H. split; [|split; [|split]].
  - apply generate_edges_inv in H. exact (proj1 H).
  - rewrite generate_edges_unfold in H. apply edge_loop_draws in H.
    destruct H as [draws [Hdraws ->]]. exists draws.
    split; [exact Hdraws|]. split.
    + intros d Hd. exact (replay_covers draws d Hd).
    + intros e He. split;
        [exact (replay_keys_drawn draws e He)
        | exact (replay_count_drawn draws e He)].
  - intros n edges s s' Hn. apply edge_loop_inv in Hn. exact (proj1 Hn).
  - intros edges l1 e l2 org region count -> Hnd Ho Hr.
    exact (record_projects_existing l1 e l2 org region count Hnd Ho Hr).
Qed.

Lemma generate_edges_one_edge_per_triple_demo :
  generate_edges demo_orgs demo_regions demo_rng = Ok (demo_edges, demo_end)
  /\ NoDup (map edge_key demo_edges)
  /\ (exists draws,
        map Some draws
        = map (draw_of demo_orgs demo_regions demo_rng)
              (seq 0 TOTAL_PROJECTS)
        /\ (forall d, In d draws ->
                      exists e, In e demo_edges /\ edge_key e = draw_key d)
        /\ (forall e, In e demo_edges ->
                      In (edge_key e) (map draw_key draws)
                      /\ Edge.project_count e = drawn (edge_key e) draws))
  /\ forall e l2,
      demo_edges = e :: l2 ->
      record_projects demo_edges
        (Org.make (Edge.org_id e) (utf8 "Oxfam"))
        (Region.make (Edge.region_id e) (utf8 "syria") (utf8 "Aleppo")
                     4500000 (utf8 "high"))
        (Edge.aid_type e) 7
      = Edge.make (Edge.org_id e) (Edge.region_id e) (Edge.aid_type e)
                  (Edge.project_count e + 7) :: l2.
Proof.
  assert (run : generate_edges demo_orgs demo_regions demo_rng
                = Ok (demo_edges, demo_end)) by (vm_compute; reflexivity).
  destruct (generate_edges_one_edge_per_triple
              demo_orgs demo_regions demo_rng demo_edges demo_end run)
    as [Hnd [Hdraws [_ Hacc]]].
  split; [exact run|]. split; [exact Hnd|]. split; [exact Hdraws|].
  intros e l2 E.
  exact (Hacc demo_edges [] e l2
               (Org.make (Edge.org_id e) (utf8 "Oxfam"))
               (Region.make (Edge.region_id e) (utf8 "syria") (utf8 "Aleppo")
                            4500000 (utf8 "high"))
               7%Z E Hnd eq_refl eq_refl).
Defined.

(** C2 (as stated, refuted). [generate_regions COUNTRIES] does not return
    33 records, and the row counts of [REGIONS_DB] do not add up to 33. *)
Lemma generate_regions_seeded_count_not_33 :
  ~ (exists rs, generate_regions COUNTRIES = Ok rs /\ length rs = 33)
  /\ list_sum (map (fun kv => length (snd kv)) REGIONS_DB) <> 33.
Proof.
  split.
  - intros [rs [H Hlen]]. rewrite generate_regions_flat in H.
    apply Ok_inj in H. subst rs. vm_compute in Hlen. discriminate Hlen.
  - vm_compute. discriminate.
Qed.

(** C2 (amended). With the seeded [COUNTRIES] and [REGIONS_DB],
    [generate_regions] returns exactly 32 region records, the sum of the row
    counts of [REGIONS_DB]; so the regions list that a run of [main] writes
    has 32 records. *)
Theorem generate_regions_seeded_count :
  (exists rs,
      generate_regions COUNTRIES = Ok rs
      /\ length rs = 32
      /\ list_sum (map (fun kv => length (snd kv)) REGIONS_DB) = 32)
  /\ forall rng d rng', main rng = Ok (d, rng') -> length (regions d) = 32.
Proof.
  assert (E : length (flat_map regions_of COUNTRIES) = 32)
    by (vm_compute; reflexivity).
  split.
  - exists (flat_map regions_of COUNTRIES).
    split; [apply generate_regions_flat|]. split; [exact E|].
    vm_compute. reflexivity.
  - intros rng d rng' H. apply main_Ok in H.
    destruct H as [_ [_ [Hr _]]]. rewrite Hr. exact E.
Qed.

Lemma generate_regions_seeded_count_demo :
  main demo_rng = Ok (demo_dataset, demo_end)
  /\ length (regions demo_dataset) = 32.
Proof.
  split.
  - vm_compute. reflexivity.
  - apply (proj2 generate_regions_seeded_count demo_rng demo_dataset demo_end).
    vm_compute. reflexivity.
Defined.

(** C3 (as stated, refuted). The ids are not obtained by removing the two
    accented characters: for the second name the source yields
    [medecins-sans-frontières], removal would yield [mdecins-sans-frontières]. *)
Lemma generate_orgs_not_by_removal :
  generate_orgs
  <> Ok (map (fun name => Org.make (spec_org_id name) name) NGO_NAMES)
  /\ exists orgs o,
      generate_orgs = Ok orgs
      /\ nth_error orgs 1 = Some o
      /\ Org.name o = utf8 "Médecins Sans Frontières"
      /\ Org.id o = utf8 "medecins-sans-frontières"
      /\ spec_org_id (Org.name o) = utf8 "mdecins-sans-frontières".
Proof.
  split.
  - rewrite generate_orgs_map. intros H. apply Ok_inj in H.
    apply (f_equal (fun l => nth_error l 1)) in H.
    vm_compute in H. discriminate H.
  - rewrite generate_orgs_map. eexists. eexists.
    split; [reflexivity|]. split; [vm_compute; reflexivity|].
    repeat split; vm_compute; reflexivity.
Qed.

(** C3 (amended). For every name in [NGO_NAMES], [generate_orgs] produces
    its id by lower-casing the name, replacing spaces with hyphens, and
    replacing e-acute with [e] and c-cedilla with [c], which acts on the name
    code point by code point; the returned list keeps the order of
    [NGO_NAMES]. *)
Theorem generate_orgs_ids_in_order :
  exists orgs,
    generate_orgs = Ok orgs
    /\ map Org.name orgs = NGO_NAMES
    /\ Forall (fun o =>
                 Org.id o
                 = replace (utf8 "ç") (utf8 "c")
                     (replace (utf8 "é") (utf8 "e")
                        (replace (utf8 " ") (utf8 "-") (lower (Org.name o))))
                 /\ Org.id o = map org_id_char (Org.name o))
              orgs.
Proof.
  eexists. split; [apply generate_orgs_map|]. split.
  - rewrite map_map. cbn [Org.name]. apply map_id.
  - apply Forall_forall. intros o Ho. apply in_map_iff in Ho.
    destruct Ho as [name [<- _]]. cbn [Org.id Org.name].
    split; [symmetry; apply org_id_by_char | reflexivity].
Qed.

(** C4 (evaluation at the failing input). [generate_orgs] returns 15 orgs
    with pairwise distinct ids free of whitespace, but the id derived from
    the second name keeps its e-grave, an accented character. *)
Theorem generate_orgs_keeps_grave_accent :
  exists orgs o,
    generate_orgs = Ok orgs
    /\ length orgs = NUM_ORGS
    /\ NoDup (map Org.id orgs)
    /\ Forall (fun o => existsb isspace (Org.id o) = false) orgs
    /\ nth_error orgs 1 = Some o
    /\ Org.name o = utf8 "Médecins Sans Frontières"
    /\ Org.id o = utf8 "medecins-sans-frontières"
    /\ existsb is_accented (Org.id o) = true.
Proof.
  rewrite generate_orgs_map. eexists. eexists.
  split; [reflexivity|]. split; [vm_compute; reflexivity|].
  split; [apply distinctb_NoDup; vm_compute; reflexivity|].
  split.
  { apply Forall_forall. intros o Ho. apply negb_true_iff.
    revert o Ho. apply forallb_forall. vm_compute. reflexivity. }
  split; [vm_compute; reflexivity|].
  repeat split; vm_compute; reflexivity.
Qed.

(** C5. For every sequence of random draws and non-empty org and region
    lists, a list returned by [generate_edges] has [project_count >= 1] on
    every edge and between 1 and [TOTAL_PROJECTS] = 180 edges; a list is
    returned whenever some region has need level high. *)
Theorem generate_edges_counts_and_size orgs regions rng :
  orgs <> [] -> regions <> [] ->
  TOTAL_PROJECTS = 180
  /\ (forall es rng',
        generate_edges orgs regions rng = Ok (es, rng') ->
        Forall (fun e => (1 <= Edge.project_count e)%Z) es
        /\ 1 <= length es <= TOTAL_PROJECTS)
  /\ (filter is_high_need regions <> [] ->
      exists es rng', generate_edges orgs regions rng = Ok (es, rng')).
Proof.
  intros Ho Hr. split; [reflexivity|]. split.
  - intros es rng' H. apply generate_edges_inv in H.
    destruct H as [_ [Hok [Hle Hge]]]. split.
    + eapply Forall_impl; [|exact Hok]. intros e He. exact (proj1 He).
    + split; [apply Hge; unfold TOTAL_PROJECTS; lia | exact Hle].
  - intros Hh. apply generate_edges_total; assumption.
Qed.

Lemma generate_edges_counts_and_size_demo :
  generate_edges demo_orgs demo_regions demo_rng = Ok (demo_edges, demo_end)
  /\ Forall (fun e => (1 <= Edge.project_count e)%Z) demo_edges
  /\ 1 <= length demo_edges <= TOTAL_PROJECTS.
Proof.
  split.
  - vm_compute. reflexivity.
  - apply (proj1 (proj2 (generate_edges_counts_and_size
                           demo_orgs demo_regions demo_rng
                           ltac:(discriminate) ltac:(discriminate)))
             demo_edges demo_end).
    vm_compute. reflexivity.
Defined.

(** C6. For every input list, [generate_regions] emits, for each country
    with an entry in [REGIONS_DB], one record per tuple of the entry, with id
    the country id, a hyphen and the slug, and display name the slug with
    hyphens replaced by spaces and each word capitalized; a country without
    an entry contributes nothing and raises no error. *)
Theorem generate_regions_per_country countries :
  generate_regions countries = Ok (flat_map spec_regions_of countries)
  /\ forall before c after,
      dict_get REGIONS_DB (Country.id c) = None ->
      generate_regions (before ++ c :: after)
      = generate_regions (before ++ after).
Proof.
  split.
  - rewrite generate_regions_flat. apply f_equal.
    apply flat_map_ext. exact regions_of_spec.
  - intros before c after Habs. rewrite !generate_regions_flat.
    rewrite !flat_map_app. cbn [flat_map].
    unfold regions_of at 2. rewrite Habs. reflexivity.
Qed.

Lemma generate_regions_per_country_absent_demo :
  dict_get REGIONS_DB (utf8 "lebanon") = None
  /\ generate_regions
       (COUNTRIES ++ country "lebanon" "Lebanon" 5500000 "high" :: [])
     = generate_regions (COUNTRIES ++ []).
Proof.
  split.
  - vm_compute. reflexivity.
  - apply (proj2 (generate_regions_per_country [])).
    vm_compute. reflexivity.
Defined.

(** C7. For every input list, each region returned by [generate_regions]
    has the id of some input country as its [country_id], and the number of
    regions is the sum of the table row counts over the input countries that
    have an entry in [REGIONS_DB]. *)
Theorem generate_regions_country_ids_and_count countries :
  exists rs,
    generate_regions countries = Ok rs
    /\ Forall (fun r => In (Region.country_id r) (map Country.id countries))
              rs
    /\ length rs
       = list_sum (map row_count (filter in_regions_db countries)).
Proof.
  exists (flat_map regions_of countries).
  split; [apply generate_regions_flat|]. split.
  - apply Forall_forall. intros r Hr. apply in_flat_map in Hr.
    destruct Hr as [c [Hc Hr]]. rewrite (regions_of_country_id _ _ Hr).
    apply in_map. exact Hc.
  - rewrite length_flat_map, sum_row_count_present.
    apply f_equal. apply map_ext. exact length_regions_of.
Qed.

(** C8. Every run of the generator completes, two runs write the same
    countries, orgs and regions lists whatever the random draws, and the
    edges lists of two runs can differ. *)
Theorem runs_agree_except_on_edges :
  (forall rng, exists d end', main rng = Ok (d, end'))
  /\ (forall rng1 rng2 d1 d2 end1 end2,
        main rng1 = Ok (d1, end1) -> main rng2 = Ok (d2, end2) ->
        countries d1 = countries d2
        /\ orgs d1 = orgs d2
        /\ regions d1 = regions d2)
  /\ exists rng1 rng2 d1 d2 end1 end2,
      main rng1 = Ok (d1, end1) /\ main rng2 = Ok (d2, end2)
      /\ edges d1 <> edges d2.
Proof.
  split; [exact main_total|]. split.
  - intros rng1 rng2 d1 d2 end1 end2 H1 H2.
    apply main_Ok in H1. apply main_Ok in H2.
    destruct H1 as [Hc1 [Ho1 [Hr1 _]]]. destruct H2 as [Hc2 [Ho2 [Hr2 _]]].
    rewrite Hc1, Hc2, Ho1, Ho2, Hr1, Hr2. auto.
  - exists zero_rng, one_rng, zero_dataset, one_dataset.
    eexists. eexists. split; [exact zero_run|]. split; [exact one_run|].
    intros H. vm_compute in H. discriminate H.
Qed.

Lemma runs_agree_except_on_edges_demo :
  main zero_rng = Ok (zero_dataset, Random.make (fun _ => 0%N) 900)
  /\ main one_rng = Ok (one_dataset, Random.make (fun _ => 1%N) 900)
  /\ countries zero_dataset = countries one_dataset
  /\ orgs zero_dataset = orgs one_dataset
  /\ regions zero_dataset = regions one_dataset.
Proof.
  split; [vm_compute; reflexivity|]. split; [vm_compute; reflexivity|].
  apply (proj1 (proj2 runs_agree_except_on_edges) zero_rng one_rng
               zero_dataset one_dataset
               (Random.make (fun _ => 0%N) 900)
               (Random.make (fun _ => 1%N) 900)).
  - vm_compute. reflexivity.
  - vm_compute. reflexivity.
Defined.

(** C9. The seeded region table has a region of need level high, so the
    high-need list built in [generate_edges] is not empty, the choice on the
    70% branch is defined, and [generate_edges] returns a list for every
    sequence of random draws (given at least one org). *)
Theorem generate_edges_never_fails orgs :
  orgs <> [] ->
  exists regions,
    generate_regions COUNTRIES = Ok regions
    /\ filter is_high_need regions <> []
    /\ forall rng, exists es rng',
        generate_edges orgs regions rng = Ok (es, rng').
Proof.
  intros Ho. exists (flat_map regions_of COUNTRIES).
  split; [apply generate_regions_flat|].
  split; [exact seeded_high_need_regions|].
  intros rng. apply generate_edges_total;
    [exact Ho | exact seeded_high_need_regions].
Qed.

Lemma generate_edges_never_fails_demo :
  exists regions,
    generate_regions COUNTRIES = Ok regions
    /\ filter is_high_need regions <> []
    /\ forall rng, exists es rng',
        generate_edges (orgs demo_dataset) regions rng = Ok (es, rng').
Proof.
  apply (generate_edges_never_fails (orgs demo_dataset)).
  vm_compute. discriminate.
Defined.

(** C10. For every sequence of random draws, every edge returned by
    [generate_edges] carries the id of an input org, the id of an input
    region, and one of the aid types food, medical, infrastructure. *)
Theorem generate_edges_referential_integrity orgs regions rng es rng' :
  generate_edges orgs regions rng = Ok (es, rng') ->
  Forall (fun e =>
            In (Edge.org_id e) (map Org.id orgs)
            /\ In (Edge.region_id e) (map Region.id regions)
            /\ (Edge.aid_type e = utf8 "food"
                \/ Edge.aid_type e = utf8 "medical"
                \/ Edge.aid_type e = utf8 "infrastructure"))
         es.
Proof.
  intros H. apply generate_edges_inv in H. destruct H as [_ [Hok _]].
  eapply Forall_impl; [|exact Hok].
  intros e [_ [Ho [Hr Ha]]]. split; [exact Ho|]. split; [exact Hr|].
  unfold AID_TYPES in Ha. cbn [map In] in Ha.
  destruct Ha as [<-|[<-|[<-|[]]]]; auto.
Qed.

Lemma generate_edges_referential_integrity_demo :
  generate_edges demo_orgs demo_regions demo_rng = Ok (demo_edges, demo_end)
  /\ Forall (fun e =>
               In (Edge.org_id e) (map Org.id demo_orgs)
               /\ In (Edge.region_id e) (map Region.id demo_regions)
               /\ (Edge.aid_type e = utf8 "food"
                   \/ Edge.aid_type e = utf8 "medical"
                   \/ Edge.aid_type e = utf8 "infrastructure"))
            demo_edges.
Proof.
  split.
  - vm_compute. reflexivity.
  - apply (generate_edges_referential_integrity
             demo_orgs demo_regions demo_rng demo_edges demo_end).
    vm_compute. reflexivity.
Defined.

(** ** Further properties of the edge builder *)

(** X1. A list returned by [generate_edges] is the result of applying the
    accumulate-or-append step to [TOTAL_PROJECTS] draws, each made of an
    input org, an input region, an aid type and a count between 1 and 15;
    its triples are the drawn triples in the order of their first draw. *)
Theorem generate_edges_replays_draws orgs regions rng es rng' :
  generate_edges orgs regions rng = Ok (es, rng') ->
  exists draws,
    length draws = TOTAL_PROJECTS
    /\ Forall (valid_draw orgs regions) draws
    /\ es = replay draws
    /\ map edge_key es = fold_left add_key (map draw_key draws) [].
Proof.
  rewrite generate_edges_unfold. intros H. apply edge_loop_replay in H.
  destruct H as [draws [Hlen [Hv ->]]].
  exists draws. repeat split; try assumption. apply replay_keys.
Qed.

Lemma generate_edges_replays_draws_demo :
  generate_edges demo_orgs demo_regions demo_rng = Ok (demo_edges, demo_end)
  /\ exists draws,
      length draws = TOTAL_PROJECTS
      /\ Forall (valid_draw demo_orgs demo_regions) draws
      /\ demo_edges = replay draws
      /\ map edge_key demo_edges = fold_left add_key (map draw_key draws) [].
Proof.
  split.
  - vm_compute. reflexivity.
  - apply (generate_edges_replays_draws
             demo_orgs demo_regions demo_rng demo_edges demo_end).
    vm_compute. reflexivity.
Defined.

(** X2. Whatever the draws, the accumulate-or-append step keeps one edge per
    drawn triple, and the [project_count] of an edge is the sum of the counts
    drawn for its triple. *)
Theorem replay_counts_per_triple draws :
  NoDup (map edge_key (replay draws))
  /\ (forall d, In d draws ->
       exists e, In e (replay draws) /\ edge_key e = draw_key d)
  /\ (forall e, In e (replay draws) ->
       In (edge_key e) (map draw_key draws)
       /\ Edge.project_count e = drawn (edge_key e) draws).
Proof.
  split; [apply replay_NoDup|]. split.
  - intros d Hd. apply replay_covers. exact Hd.
  - intros e He. split.
    + apply replay_keys_drawn. exact He.
    + apply replay_count_drawn. exact He.
Qed.



(** X4. A returned list has at most one edge per combination of an org id,
    a region id and an aid type: its length is at most
    [3 * len(orgs) * len(regions)]. *)
Theorem generate_edges_at_most_all_triples orgs regions rng es rng' :
  generate_edges orgs regions rng = Ok (es, rng') ->
  length es <= length orgs * length regions * 3.
Proof.
  intros H. apply generate_edges_inv in H. destruct H as [Hnd [Hok _]].
  pose proof (@NoDup_incl_length _ _ _ Hnd (keys_in_product _ _ _ Hok))
    as Hlen.
  rewrite length_map, !length_prod, !length_map in Hlen. exact Hlen.
Qed.

Lemma generate_edges_at_most_all_triples_demo :
  generate_edges demo_orgs demo_regions demo_rng = Ok (demo_edges, demo_end)
  /\ length demo_edges <= length demo_orgs * length demo_regions * 3.
Proof.
  split.
  - vm_compute. reflexivity.
  - apply (generate_edges_at_most_all_triples
             demo_orgs demo_regions demo_rng demo_edges demo_end).
    vm_compute. reflexivity.
Defined.

(** ** Failures of the edge builder *)

Lemma choice_next {A} (seq : list A) s :
  seq <> [] -> exists x, Random.choice seq s = Ok (x, advance 1 s).
Proof.
  intros Hne. destruct (choice_total seq s Hne) as [x [s' E]].
  exists x. rewrite E. unfold Random.choice in E.
  destruct seq as [|y seq]; [congruence|].
  unfold Random.randbelow, Random.next_raw, Random.bind, Random.ret,
    Random.lift in E.
  destruct (getitem _ _) in E; [|discriminate].
  apply Ok_pair_inj in E. destruct E as [_ <-]. reflexivity.
Qed.

(** Runs the first computation of the leading [x <- m ;; k] by the
    equation [E]. *)
Ltac run_bind E := unfold Random.bind at 1; rewrite E.

(** One iteration on non-empty org and region lists: it fails exactly when
    the draw is below 0.7 and there is no high-need region, and otherwise
    leaves the generator five draws further. *)
Lemma edge_body_run orgs regions edges s :
  orgs <> [] -> regions <> [] ->
  let u := (Random.tape s (S (Random.pos s)) mod 9007199254740992)%N in
  (Random.lt_0_7 u = true -> filter is_high_need regions = [] ->
   edge_body orgs regions (filter is_high_need regions) edges s
   = Raise IndexError)
  /\ (Random.lt_0_7 u = false \/ filter is_high_need regions <> [] ->
      exists edges',
        edge_body orgs regions (filter is_high_need regions) edges s
        = Ok (edges', advance 5 s)).
Proof.
  intros Ho Hr u. unfold edge_body.
  destruct (choice_next orgs s Ho) as [org E1].
  assert (E2 : Random.random (advance 1 s) = Ok (u, advance 2 s))
    by reflexivity.
  split.
  - intros Hu Hh. run_bind E1. run_bind E2. rewrite Hu, Hh. reflexivity.
  - intros Hcase. run_bind E1. run_bind E2.
    assert (E3 : exists region,
               (if Random.lt_0_7 u
                then Random.choice (filter is_high_need regions)
                else Random.choice regions) (advance 2 s)
               = Ok (region, advance 3 s)).
    { destruct (Random.lt_0_7 u).
      - apply (choice_next _ (advance 2 s)).
        destruct Hcase as [Hc|Hc]; [discriminate Hc | exact Hc].
      - apply (choice_next _ (advance 2 s)). exact Hr. }
    destruct E3 as [region E3]. run_bind E3.
    assert (Ha : AID_TYPES <> []) by discriminate.
    destruct (choice_next AID_TYPES (advance 3 s) Ha) as [aid E4].
    run_bind E4. eexists. reflexivity.
Qed.

Lemma iteration_random_advance s i :
  iteration_random (advance 5 s) i = iteration_random s (S i).
Proof.
  unfold iteration_random, advance. cbn [Random.tape Random.pos].
  do 2 f_equal. lia.
Qed.

Lemma iteration_random_0 s :
  iteration_random s 0
  = (Random.tape s (S (Random.pos s)) mod 9007199254740992)%N.
Proof. unfold iteration_random. do 2 f_equal. lia. Qed.

Lemma advance_advance n m s : advance n (advance m s) = advance (n + m) s.
Proof.
  unfold advance. cbn [Random.tape Random.pos]. f_equal. lia.
Qed.

Lemma edge_loop_misses orgs regions :
  orgs <> [] -> regions <> [] ->
  forall n acc s,
    (forall i, i < n -> Random.lt_0_7 (iteration_random s i) = false) ->
    exists es,
      Random.for_times n
        (edge_body orgs regions (filter is_high_need regions)) acc s
      = Ok (es, advance (5 * n) s).
Proof.
  intros Ho Hr. induction n as [|n IH]; intros acc s Hm.
  - exists acc. unfold advance. destruct s; reflexivity.
  - cbn [Random.for_times].
    destruct (edge_body_run orgs regions acc s Ho Hr) as [_ Hok].
    destruct Hok as [acc' E].
    { left. rewrite <- iteration_random_0. apply Hm. lia. }
    unfold Random.bind. rewrite E.
    destruct (IH acc' (advance 5 s)) as [es E'].
    { intros i Hi. rewrite iteration_random_advance. apply Hm. lia. }
    exists es. rewrite E', advance_advance. do 2 f_equal.
    unfold advance. f_equal. lia.
Qed.

Lemma edge_loop_hits orgs regions :
  orgs <> [] -> regions <> [] -> filter is_high_need regions = [] ->
  forall n acc s i,
    i < n -> Random.lt_0_7 (iteration_random s i) = true ->
    Random.for_times n
      (edge_body orgs regions (filter is_high_need regions)) acc s
    = Raise IndexError.
Proof.
  intros Ho Hr Hh. induction n as [|n IH]; intros acc s i Hi Hu; [lia|].
  cbn [Random.for_times].
  destruct (edge_body_run orgs regions acc s Ho Hr) as [Hbad Hok].
  destruct (Random.lt_0_7 (iteration_random s 0)) eqn:E0.
  - rewrite iteration_random_0 in E0. unfold Random.bind.
    rewrite (Hbad E0 Hh). reflexivity.
  - rewrite iteration_random_0 in E0. destruct (Hok (or_introl E0)) as [acc' E].
    unfold Random.bind. rewrite E.
    destruct i as [|i].
    + rewrite iteration_random_0 in Hu. congruence.
    + apply (IH acc' (advance 5 s) i); [lia|].
      rewrite iteration_random_advance. exact Hu.
Qed.

(** X5. With an empty org list or an empty region list, [generate_edges]
    raises [IndexError] whatever the draws. *)
Theorem generate_edges_empty_input orgs regions rng :
  orgs = [] \/ regions = [] ->
  generate_edges orgs regions rng = Raise IndexError.
Proof.
  intros H. rewrite generate_edges_unfold. unfold TOTAL_PROJECTS.
  cbn [Random.for_times]. unfold Random.bind at 1.
  assert (E : edge_body orgs regions (filter is_high_need regions) [] rng
              = Raise IndexError).
  { destruct orgs as [|o orgs]; [reflexivity|].
    destruct H as [H|H]; [discriminate H|]. subst regions.
    unfold edge_body.
    destruct (choice_next (o :: orgs) rng ltac:(discriminate)) as [org E1].
    unfold Random.bind at 1. rewrite E1.
    unfold Random.bind at 1. cbn [Random.random].
    change (Random.random (advance 1 rng))
      with (Ok ((Random.tape rng (S (Random.pos rng))
                 mod 9007199254740992)%N, advance 2 rng)).
    cbv iota beta. cbn [filter].
    destruct (Random.lt_0_7 _); reflexivity. }
  rewrite E. reflexivity.
Qed.

Lemma generate_edges_empty_input_demo :
  generate_edges [] demo_regions demo_rng = Raise IndexError
  /\ generate_edges demo_orgs [] demo_rng = Raise IndexError.
Proof.
  split.
  - apply generate_edges_empty_input. left. reflexivity.
  - apply generate_edges_empty_input. right. reflexivity.
Defined.

(** X6. With orgs and regions but no region of need level high,
    [generate_edges] returns a list when every iteration draws
    [random.random() >= 0.7], and raises [IndexError] as soon as one
    iteration draws below 0.7. *)
Theorem generate_edges_without_high_need orgs regions rng :
  orgs <> [] -> regions <> [] -> filter is_high_need regions = [] ->
  ((forall i, i < TOTAL_PROJECTS ->
               Random.lt_0_7 (iteration_random rng i) = false) ->
   exists es,
     generate_edges orgs regions rng
     = Ok (es, advance (5 * TOTAL_PROJECTS) rng))
  /\ ((exists i, i < TOTAL_PROJECTS
                 /\ Random.lt_0_7 (iteration_random rng i) = true) ->
      generate_edges orgs regions rng = Raise IndexError).
Proof.
  intros Ho Hr Hh. rewrite generate_edges_unfold. split.
  - intros Hm. apply edge_loop_misses; assumption.
  - intros [i [Hi Hu]].
    apply (edge_loop_hits orgs regions Ho Hr Hh _ _ _ i Hi Hu).
Qed.

Lemma generate_edges_without_high_need_demo :
  (exists es,
      generate_edges demo_orgs low_regions top_rng
      = Ok (es, advance (5 * TOTAL_PROJECTS) top_rng))
  /\ generate_edges demo_orgs low_regions zero_rng = Raise IndexError.
Proof.
  split.
  - apply (proj1 (generate_edges_without_high_need
                    demo_orgs low_regions top_rng
                    ltac:(discriminate) ltac:(discriminate) eq_refl)).
    intros i Hi. reflexivity.
  - apply (proj2 (generate_edges_without_high_need
                    demo_orgs low_regions zero_rng
                    ltac:(discriminate) ltac:(discriminate) eq_refl)).
    exists 0. split; [unfold TOTAL_PROJECTS; lia | reflexivity].
Defined.

(** ** The tape of zeros *)

Lemma same_triple_refl e :
  same_triple (Edge.org_id e) (Edge.region_id e) (Edge.aid_type e) e = true.
Proof. apply same_triple_key. reflexivity. Qed.

Lemma edge_body_zeros o orgs regions h hs edges p :
  filter is_high_need regions = h :: hs ->
  edge_body (o :: orgs) regions (filter is_high_need regions) edges
            (Random.make (fun _ => 0%N) p)
  = Ok (record_projects edges o h (utf8 "food") 1,
        Random.make (fun _ => 0%N) (5 + p)).
Proof. intros Hh. rewrite Hh. reflexivity. Qed.

Lemma edge_loop_zeros o orgs regions h hs :
  filter is_high_need regions = h :: hs ->
  forall n p c,
    Random.for_times n
      (edge_body (o :: orgs) regions (filter is_high_need regions))
      [Edge.make (Org.id o) (Region.id h) (utf8 "food") c]
      (Random.make (fun _ => 0%N) p)
    = Ok ([Edge.make (Org.id o) (Region.id h) (utf8 "food")
                     (c + Z.of_nat n)],
          Random.make (fun _ => 0%N) (5 * n + p)).
Proof.
  intros Hh. induction n as [|n IH]; intros p c.
  - cbn [Random.for_times]. unfold Random.ret.
    rewrite Z.add_0_r. reflexivity.
  - cbn [Random.for_times]. unfold Random.bind.
    rewrite (edge_body_zeros o orgs regions h hs _ p Hh).
    unfold record_projects. cbn [find_index].
    pose proof (same_triple_refl
                  (Edge.make (Org.id o) (Region.id h) (utf8 "food") c))
      as Hs.
    cbn [Edge.org_id Edge.region_id Edge.aid_type] in Hs. rewrite Hs.
    cbn [update_at]. unfold add_count.
    cbn [Edge.org_id Edge.region_id Edge.aid_type Edge.project_count].
    rewrite IH. do 3 f_equal.
    + f_equal. lia.
    + lia.
Qed.

Lemma edge_loop_zeros_from_empty o orgs regions h hs :
  filter is_high_need regions = h :: hs ->
  forall n p,
    Random.for_times (S n)
      (edge_body (o :: orgs) regions (filter is_high_need regions)) []
      (Random.make (fun _ => 0%N) p)
    = Ok ([Edge.make (Org.id o) (Region.id h) (utf8 "food")
                     (1 + Z.of_nat n)],
          Random.make (fun _ => 0%N) (5 * n + (5 + p))).
Proof.
  intros Hh n p. cbn [Random.for_times]. unfold Random.bind at 1.
  rewrite (edge_body_zeros o orgs regions h hs [] p Hh).
  unfold record_projects. cbn [find_index app].
  apply (edge_loop_zeros o orgs regions h hs Hh n (5 + p) 1).
Qed.

(** X8. The bounds of a run are attained: when every raw draw is 0,
    [generate_edges] returns a single edge, from the first org to the first
    high-need region with aid type food, whose [project_count] is
    [TOTAL_PROJECTS]. *)
Theorem generate_edges_on_zeros o orgs regions h hs p :
  filter is_high_need regions = h :: hs ->
  generate_edges (o :: orgs) regions (Random.make (fun _ => 0%N) p)
  = Ok ([Edge.make (Org.id o) (Region.id h) (utf8 "food") 180],
        Random.make (fun _ => 0%N) (5 * TOTAL_PROJECTS + p)).
Proof.
  intros Hh. rewrite generate_edges_unfold.
  change TOTAL_PROJECTS with (S 179).
  rewrite (edge_loop_zeros_from_empty o orgs regions h hs Hh 179 p).
  replace (5 * 179 + (5 + p)) with (5 * S 179 + p) by lia.
  reflexivity.
Qed.

Lemma generate_edges_on_zeros_demo :
  generate_edges demo_orgs demo_regions (Random.make (fun _ => 0%N) 0)
  = Ok ([Edge.make (utf8 "icrc") (utf8 "syria-aleppo") (utf8 "food") 180],
        Random.make (fun _ => 0%N) (5 * TOTAL_PROJECTS + 0)).
Proof.
  apply (generate_edges_on_zeros
           (Org.make (utf8 "icrc") (utf8 "ICRC"))
           [Org.make (utf8 "oxfam") (utf8 "Oxfam")]
           demo_regions
           (Region.make (utf8 "syria-aleppo") (utf8 "syria") (utf8 "Aleppo")
                        4500000 (utf8 "high"))
           [] 0).
  vm_compute. reflexivity.
Defined.

(** X9. The loop does not ensure that every high-need region receives aid:
    when every raw draw is 0, a region whose id differs from that of the
    first high-need region has no edge in the returned list. *)
Theorem generate_edges_may_skip_high_need o orgs regions h hs r p :
  filter is_high_need regions = h :: hs ->
  In r hs -> Region.id r <> Region.id h ->
  exists es rng',
    generate_edges (o :: orgs) regions (Random.make (fun _ => 0%N) p)
    = Ok (es, rng')
    /\ In r regions /\ is_high_need r = true
    /\ Forall (fun e => Edge.region_id e <> Region.id r) es.
Proof.
  intros Hh Hr Hid. eexists. eexists. split.
  { rewrite generate_edges_unfold. change TOTAL_PROJECTS with (S 179).
    apply (edge_loop_zeros_from_empty o orgs regions h hs Hh 179 p). }
  assert (Hin : In r (filter is_high_need regions))
    by (rewrite Hh; right; exact Hr).
  apply filter_In in Hin. destruct Hin as [Hin Hhigh].
  split; [exact Hin|]. split; [exact Hhigh|].
  constructor; [|constructor].
  cbn [Edge.region_id]. congruence.
Qed.

Lemma generate_edges_may_skip_high_need_demo :
  exists es rng',
    generate_edges demo_orgs two_high_regions (Random.make (fun _ => 0%N) 0)
    = Ok (es, rng')
    /\ In (Region.make (utf8 "syria-idlib") (utf8 "syria") (utf8 "Idlib")
                       3000000 (utf8 "high")) two_high_regions
    /\ is_high_need (Region.make (utf8 "syria-idlib") (utf8 "syria")
                                 (utf8 "Idlib") 3000000 (utf8 "high")) = true
    /\ Forall (fun e => Edge.region_id e <> utf8 "syria-idlib") es.
Proof.
  apply (generate_edges_may_skip_high_need
           (Org.make (utf8 "icrc") (utf8 "ICRC"))
           [Org.make (utf8 "oxfam") (utf8 "Oxfam")]
           two_high_regions
           (Region.make (utf8 "syria-aleppo") (utf8 "syria") (utf8 "Aleppo")
                        4500000 (utf8 "high"))
           [Region.make (utf8 "syria-idlib") (utf8 "syria") (utf8 "Idlib")
                        3000000 (utf8 "high")]
           (Region.make (utf8 "syria-idlib") (utf8 "syria") (utf8 "Idlib")
                        3000000 (utf8 "high"))
           0).
  - vm_compute. reflexivity.
  - left. reflexivity.
  - intros H. vm_compute in H. discriminate H.
Defined.

(** ** Further properties of the region builder *)

Lemma generate_regions_with_from db (countries : list Country.t) :
  forall acc : list Region.t,
    for_each countries
      (fun country regions =>
         let cid := Country.id country in
         if dict_contains db cid then
           rbind (dict_getitem db cid)
             (fun rows =>
                for_each rows
                  (fun '(r_name, r_pop, r_need) regions =>
                     let rid := cid ++ utf8 "-" ++ r_name in
                     Ok (regions ++
                          [Region.make rid cid
                             (replace (utf8 "-") (utf8 " ") (title r_name))
                             r_pop r_need]))
                  regions)
         else Ok regions)
      acc
    = Ok (acc ++ flat_map (regions_in db) countries).
Proof.
  induction countries as [|c cs IH]; intros acc; simpl.
  - rewrite app_nil_r. reflexivity.
  - assert (R : regions_in db c
                = match dict_get db (Country.id c) with
                  | Some rows => map (region_of_row (Country.id c)) rows
                  | None => []
                  end) by reflexivity.
    rewrite R. clear R. unfold dict_contains, dict_getitem.
    destruct (dict_get db (Country.id c)) as [rows|]; simpl.
    + rewrite for_each_ext
        with (g := fun x acc => Ok (acc ++ [region_of_row (Country.id c) x]))
        by (intros [[r_name r_pop] r_need] regs; reflexivity).
      rewrite for_each_append. simpl. rewrite IH, <- app_assoc. reflexivity.
    + rewrite IH. reflexivity.
Qed.

Lemma generate_regions_with_flat db countries :
  generate_regions_with db countries = Ok (flat_map (regions_in db) countries).
Proof. unfold generate_regions_with. apply generate_regions_with_from. Qed.

Lemma region_core_of_row cid r :
  region_core (region_of_row cid r) = core_of_row cid r.
Proof. destruct r as [[n p0] d]. reflexivity. Qed.

(** X10. Whatever the lookup table, [generate_regions] raises nothing (the
    membership test guards the lookup): it returns, in input order and in
    table order, one region per row of each input country found in the
    table, carrying the compound id, the country id, the population and the
    need level of the row; the number of regions is the sum of the row counts
    found. *)
Theorem generate_regions_any_table db countries :
  generate_regions_with REGIONS_DB countries = generate_regions countries
  /\ exists rs,
      generate_regions_with db countries = Ok rs
      /\ map region_core rs
         = flat_map (fun c =>
                       match dict_get db (Country.id c) with
                       | Some rows => map (core_of_row (Country.id c)) rows
                       | None => []
                       end) countries
      /\ length rs
         = list_sum (map (fun c =>
                            match dict_get db (Country.id c) with
                            | Some rows => length rows
                            | None => 0
                            end) countries).
Proof.
  split; [reflexivity|].
  exists (flat_map (regions_in db) countries).
  split; [apply generate_regions_with_flat|]. split.
  - induction countries as [|c cs IH]; [reflexivity|].
    cbn [flat_map]. rewrite map_app, IH. f_equal.
    unfold regions_in. destruct (dict_get db (Country.id c)); [|reflexivity].
    rewrite map_map. apply map_ext. intros r. apply region_core_of_row.
  - rewrite length_flat_map. f_equal. apply map_ext. intros c.
    unfold regions_in. destruct (dict_get db (Country.id c));
      [apply length_map | reflexivity].
Qed.

(** X11. [generate_regions] distributes over concatenation of country
    lists: the regions of [a ++ b] are those of [a] followed by those of
    [b]; in particular a country listed twice has its regions emitted
    twice. *)
Theorem generate_regions_app a b :
  exists ra rb,
    generate_regions a = Ok ra /\ generate_regions b = Ok rb
    /\ generate_regions (a ++ b) = Ok (ra ++ rb).
Proof.
  exists (flat_map regions_of a), (flat_map regions_of b).
  rewrite !generate_regions_flat, flat_map_app. auto.
Qed.

Lemma NoDup_app_disjoint {A} (l1 l2 : list A) (y : A) :
  NoDup (l1 ++ l2) -> In y l1 -> In y l2 -> False.
Proof.
  induction l1 as [|a l1 IH]; intros Hnd H1 H2; [destruct H1|].
  cbn [app] in Hnd. apply NoDup_cons_iff in Hnd. destruct Hnd as [Ha Hnd].
  destruct H1 as [->|H1].
  - apply Ha. apply in_or_app. right. exact H2.
  - exact (IH Hnd H1 H2).
Qed.

Lemma flat_map_disjoint {A B} (g : A -> list B) (l : list A) :
  NoDup (flat_map g l) ->
  forall x x' y,
    In x l -> In x' l -> x <> x' -> In y (g x) -> In y (g x') -> False.
Proof.
  induction l as [|a l IH]; intros Hnd x x' y Hx Hx' Hne Hy Hy';
    [destruct Hx|].
  cbn [flat_map] in Hnd.
  assert (Hin : forall z, In z l -> In y (g z) -> In y (flat_map g l)).
  { intros z Hz Hyz. apply in_flat_map. exists z. auto. }
  destruct Hx as [->|Hx], Hx' as [->|Hx'].
  - congruence.
  - exact (NoDup_app_disjoint _ _ y Hnd Hy (Hin x' Hx' Hy')).
  - exact (NoDup_app_disjoint _ _ y Hnd Hy' (Hin x Hx Hy)).
  - exact (IH (NoDup_app_remove_l _ _ Hnd) x x' y Hx Hx' Hne Hy Hy').
Qed.

Lemma NoDup_flat_map_elem {A B} (g : A -> list B) (l : list A) (x : A) :
  NoDup (flat_map g l) -> In x l -> NoDup (g x).
Proof.
  induction l as [|a l IH]; intros Hnd Hx; [destruct Hx|].
  cbn [flat_map] in Hnd. destruct Hx as [->|Hx].
  - exact (NoDup_app_remove_r _ _ Hnd).
  - exact (IH (NoDup_app_remove_l _ _ Hnd) Hx).
Qed.

Lemma NoDup_flat_map_sub {A B} (g : A -> list B) (l : list A) :
  NoDup (flat_map g l) ->
  forall l', NoDup l' -> incl l' l -> NoDup (flat_map g l').
Proof.
  intros Hnd. induction l' as [|x l' IH]; intros Hl' Hincl; [constructor|].
  apply NoDup_cons_iff in Hl'. destruct Hl' as [Hx Hl'].
  cbn [flat_map]. apply NoDup_app.
  - apply (NoDup_flat_map_elem g l x Hnd). apply Hincl. now left.
  - apply IH; [exact Hl'|]. intros z Hz. apply Hincl. now right.
  - intros y Hy Hy'. apply in_flat_map in Hy'. destruct Hy' as [x' [Hx' Hy']].
    apply (flat_map_disjoint g l Hnd x x' y); auto.
    + apply Hincl. now left.
    + apply Hincl. now right.
    + intros ->. contradiction.
Qed.

Lemma region_ids_flat countries :
  map Region.id (flat_map regions_of countries)
  = flat_map ids_of_key (map Country.id countries).
Proof.
  induction countries as [|c cs IH]; [reflexivity|].
  cbn [flat_map map]. rewrite map_app, IH. f_equal.
  unfold regions_of, ids_of_key.
  destruct (dict_get REGIONS_DB (Country.id c)); [|reflexivity].
  apply map_map.
Qed.

Lemma ids_of_key_present ks :
  flat_map ids_of_key ks
  = flat_map ids_of_key (filter (dict_contains REGIONS_DB) ks).
Proof.
  induction ks as [|k ks IH]; [reflexivity|]. cbn [flat_map filter].
  destruct (dict_contains REGIONS_DB k) eqn:E.
  - cbn [flat_map]. rewrite IH. reflexivity.
  - rewrite IH. unfold ids_of_key at 1. unfold dict_contains in E.
    destruct (dict_get REGIONS_DB k); [discriminate E | reflexivity].
Qed.

Lemma present_in_keys k :
  dict_contains REGIONS_DB k = true -> In k (map fst REGIONS_DB).
Proof.
  unfold dict_contains.
  destruct (dict_get REGIONS_DB k) as [rows|] eqn:E; [|discriminate].
  intros _. apply dict_get_In in E.
  apply (in_map fst) in E. exact E.
Qed.

Lemma table_ids_distinct :
  NoDup (flat_map ids_of_key (map fst REGIONS_DB)).
Proof. apply distinctb_NoDup. vm_compute. reflexivity. Qed.

Lemma table_rows_ok :
  forallb (fun kv => forallb row_ok (snd kv)) REGIONS_DB = true.
Proof. vm_compute. reflexivity. Qed.

(** X12. When the input countries have pairwise distinct ids, the regions
    returned by [generate_regions] have pairwise distinct ids. *)
Theorem generate_regions_ids_unique countries :
  NoDup (map Country.id countries) ->
  exists rs,
    generate_regions countries = Ok rs /\ NoDup (map Region.id rs).
Proof.
  intros Hnd. exists (flat_map regions_of countries).
  split; [apply generate_regions_flat|].
  rewrite region_ids_flat, ids_of_key_present.
  apply (NoDup_flat_map_sub ids_of_key (map fst REGIONS_DB)
                            table_ids_distinct).
  - apply NoDup_filter. exact Hnd.
  - intros k Hk. apply filter_In in Hk. apply present_in_keys. tauto.
Qed.

Lemma generate_regions_ids_unique_demo :
  exists rs, generate_regions COUNTRIES = Ok rs /\ NoDup (map Region.id rs).
Proof.
  apply (generate_regions_ids_unique COUNTRIES).
  apply distinctb_NoDup. vm_compute. reflexivity.
Defined.

(** X13. Whatever the input, every region returned by [generate_regions]
    has a need level among [NEED_LEVELS], a positive population, and a
    display name without a hyphen. *)
Theorem generate_regions_fields countries :
  exists rs,
    generate_regions countries = Ok rs
    /\ Forall (fun r =>
                 In (Region.need_level r) NEED_LEVELS
                 /\ (0 < Region.population r)%Z
                 /\ ~ In 45%N (Region.name r))
              rs.
Proof.
  exists (flat_map regions_of countries).
  split; [apply generate_regions_flat|].
  apply Forall_forall. intros r Hr. apply in_flat_map in Hr.
  destruct Hr as [c [_ Hr]]. unfold regions_of in Hr.
  destruct (dict_get REGIONS_DB (Country.id c)) as [rows|] eqn:E;
    [|destruct Hr].
  apply in_map_iff in Hr. destruct Hr as [[[slug pop] need] [<- Hrow]].
  apply dict_get_In in E.
  pose proof table_rows_ok as T. rewrite forallb_forall in T.
  specialize (T _ E). cbn [snd] in T. rewrite forallb_forall in T.
  specialize (T _ Hrow). unfold row_ok in T.
  apply andb_true_iff in T. destruct T as [Tn Tp].
  cbn [region_of_row Region.need_level Region.population Region.name].
  split; [apply existsb_str_eqb; exact Tn|].
  split; [apply Z.ltb_lt; exact Tp|].
  change (utf8 "-") with [45%N]. change (utf8 " ") with [32%N].
  rewrite replace_single. intros Hin. apply in_map_iff in Hin.
  destruct Hin as [x [Hx _]].
  destruct (N.eqb_spec x 45); [discriminate Hx | congruence].
Qed.

(** ** Further properties of the org builder *)

Ltac case_cmp :=
  repeat match goal with
         | |- context [(?a <=? ?b)%N] => destruct (N.leb_spec a b)
         | |- context [(?a =? ?b)%N] => destruct (N.eqb_spec a b)
         end;
  cbn [andb orb negb]; try reflexivity; try discriminate; try lia.

Lemma org_id_char_not_space c : org_id_char c <> 32%N.
Proof.
  unfold org_id_char, to_lower. cbv zeta.
  destruct (is_upper c); case_cmp.
Qed.

Lemma is_upper_to_lower c : is_upper (to_lower c) = false.
Proof.
  unfold to_lower. destruct (is_upper c) eqn:E; [|exact E].
  revert E. unfold is_upper. case_cmp.
Qed.

Lemma to_lower_idem c : to_lower (to_lower c) = to_lower c.
Proof.
  unfold to_lower at 1. rewrite is_upper_to_lower. reflexivity.
Qed.

Lemma org_id_char_not_upper c : is_upper (org_id_char c) = false.
Proof.
  unfold org_id_char. cbv zeta.
  pose proof (is_upper_to_lower c) as H. revert H.
  generalize (to_lower c). intros l H.
  destruct (N.eqb_spec l 32); [reflexivity|].
  destruct (N.eqb_spec l 233); [reflexivity|].
  destruct (N.eqb_spec l 231); [reflexivity | exact H].
Qed.

Lemma org_id_char_idem c : org_id_char (org_id_char c) = org_id_char c.
Proof.
  assert (F : forall l, is_upper l = false -> l <> 32%N -> l <> 233%N ->
                        l <> 231%N -> org_id_char l = l).
  { intros l Hu H1 H2 H3. unfold org_id_char, to_lower. rewrite Hu. cbv zeta.
    destruct (N.eqb_spec l 32); [contradiction|].
    destruct (N.eqb_spec l 233); [contradiction|].
    destruct (N.eqb_spec l 231); [contradiction|]. reflexivity. }
  unfold org_id_char at 2 3. cbv zeta.
  pose proof (is_upper_to_lower c) as H. revert H.
  generalize (to_lower c). intros l H.
  destruct (N.eqb_spec l 32); [reflexivity|].
  destruct (N.eqb_spec l 233); [reflexivity|].
  destruct (N.eqb_spec l 231); [reflexivity|].
  apply F; assumption.
Qed.

Lemma generate_orgs_with_map names :
  generate_orgs_with names
  = Ok (map (fun name => Org.make (map org_id_char name) name) names).
Proof.
  unfold generate_orgs_with, for_range.
  etransitivity.
  { exact (for_range_index_append
             (fun name =>
                Org.make
                  (replace (utf8 "ç") (utf8 "c")
                     (replace (utf8 "é") (utf8 "e")
                        (replace (utf8 " ") (utf8 "-") (lower name))))
                  name)
             names names [] [] eq_refl). }
  cbn [app]. apply f_equal. apply map_ext. intros name.
  rewrite org_id_by_char. reflexivity.
Qed.

(** X14. Whatever the table of names (over the code points on which the
    case mapping is modelled exactly), [generate_orgs] raises nothing and
    returns one org per name, in order and with the name kept; each id has as
    many code points as its name, no space and no upper-case letter. *)
Theorem generate_orgs_any_names names :
  forallb latin1 names = true ->
  generate_orgs_with NGO_NAMES = generate_orgs
  /\ exists orgs,
      generate_orgs_with names = Ok orgs
      /\ map Org.name orgs = names
      /\ Forall (fun o =>
                   length (Org.id o) = length (Org.name o)
                   /\ ~ In 32%N (Org.id o)
                   /\ Forall (fun c => is_upper c = false) (Org.id o))
                orgs.
Proof.
  intros _. split; [reflexivity|].
  eexists. split; [apply generate_orgs_with_map|]. split.
  - rewrite map_map. cbn [Org.name]. apply map_id.
  - apply Forall_forall. intros o Ho. apply in_map_iff in Ho.
    destruct Ho as [name [<- _]]. cbn [Org.id Org.name].
    split; [apply length_map|]. split.
    + intros Hin. apply in_map_iff in Hin. destruct Hin as [c [Hc _]].
      exact (org_id_char_not_space c Hc).
    + apply Forall_forall. intros x Hx. apply in_map_iff in Hx.
      destruct Hx as [c [<- _]]. apply org_id_char_not_upper.
Qed.

Lemma generate_orgs_any_names_demo :
  generate_orgs_with NGO_NAMES = generate_orgs
  /\ exists orgs,
      generate_orgs_with NGO_NAMES = Ok orgs
      /\ map Org.name orgs = NGO_NAMES
      /\ Forall (fun o =>
                   length (Org.id o) = length (Org.name o)
                   /\ ~ In 32%N (Org.id o)
                   /\ Forall (fun c => is_upper c = false) (Org.id o))
                orgs.
Proof.
  apply (generate_orgs_any_names NGO_NAMES). vm_compute. reflexivity.
Defined.

(** X15. Ids are fixed points of the id derivation: running the builder on
    the ids it produced yields the same ids again. *)
Theorem generate_orgs_ids_stable names :
  forallb latin1 names = true ->
  exists orgs,
    generate_orgs_with names = Ok orgs
    /\ generate_orgs_with (map Org.id orgs)
       = Ok (map (fun o => Org.make (Org.id o) (Org.id o)) orgs).
Proof.
  intros _. eexists. split; [apply generate_orgs_with_map|].
  rewrite generate_orgs_with_map, !map_map. cbn [Org.id].
  apply f_equal. apply map_ext. intros name. f_equal.
  rewrite map_map. apply map_ext. intros c. apply org_id_char_idem.
Qed.

Lemma generate_orgs_ids_stable_demo :
  exists orgs,
    generate_orgs_with NGO_NAMES = Ok orgs
    /\ generate_orgs_with (map Org.id orgs)
       = Ok (map (fun o => Org.make (Org.id o) (Org.id o)) orgs).
Proof.
  apply (generate_orgs_ids_stable NGO_NAMES). vm_compute. reflexivity.
Defined.

(** X16. The builder detects no collision: a table that lists a name
    together with the id derived from it (when the two differ) yields two orgs
    with distinct names and the same id. *)
Theorem generate_orgs_collision name o :
  latin1 name = true ->
  generate_orgs_with [name] = Ok [o] ->
  Org.id o <> name ->
  exists o1 o2,
    generate_orgs_with [name; Org.id o] = Ok [o1; o2]
    /\ Org.name o1 <> Org.name o2
    /\ Org.id o1 = Org.id o2.
Proof.
  intros _ H Hne. rewrite generate_orgs_with_map in H.
  apply Ok_inj in H. cbn [map] in H. injection H as <-.
  cbn [Org.id] in *. rewrite generate_orgs_with_map. cbn [map].
  eexists. eexists. split; [reflexivity|].
  cbn [Org.name Org.id]. split; [congruence|].
  rewrite map_map. apply map_ext. intros c. symmetry. apply org_id_char_idem.
Qed.

Lemma generate_orgs_collision_demo :
  exists o1 o2,
    generate_orgs_with [utf8 "Mercy Corps"; utf8 "mercy-corps"] = Ok [o1; o2]
    /\ Org.name o1 <> Org.name o2
    /\ Org.id o1 = Org.id o2.
Proof.
  apply (generate_orgs_collision
           (utf8 "Mercy Corps")
           (Org.make (utf8 "mercy-corps") (utf8 "Mercy Corps"))).
  - vm_compute. reflexivity.
  - vm_compute. reflexivity.
  - intros H. vm_compute in H. discriminate H.
Defined.

(** ** The whole run *)

Lemma seeded_country_ids : NoDup (map Country.id COUNTRIES).
Proof. apply distinctb_NoDup. vm_compute. reflexivity. Qed.

Lemma seeded_org_ids :
  NoDup (map Org.id
             (map (fun name => Org.make (map org_id_char name) name)
                  NGO_NAMES)).
Proof. apply distinctb_NoDup. vm_compute. reflexivity. Qed.

(** X17. Every data set a run of [main] hands to [json.dump] is closed
    under its references and has unique keys: country, org and region ids
    are pairwise distinct, as are the edge triples; every region points to a
    listed country, and every edge to a listed org and a listed region with
    one of the three aid types and a count of at least 1. *)
Theorem main_dataset_closed rng d rng' :
  main rng = Ok (d, rng') ->
  NoDup (map Country.id (countries d))
  /\ NoDup (map Org.id (orgs d))
  /\ NoDup (map Region.id (regions d))
  /\ NoDup (map edge_key (edges d))
  /\ Forall (fun r => In (Region.country_id r)
                         (map Country.id (countries d)))
            (regions d)
  /\ Forall (fun e =>
               In (Edge.org_id e) (map Org.id (orgs d))
               /\ In (Edge.region_id e) (map Region.id (regions d))
               /\ In (Edge.aid_type e) AID_TYPES
               /\ (1 <= Edge.project_count e)%Z)
            (edges d).
Proof.
  intros H. apply main_Ok in H. destruct H as [Hc [Ho [Hr He]]].
  apply generate_edges_inv in He. destruct He as [Hnd [Hok _]].
  split; [rewrite Hc; exact seeded_country_ids|].
  split; [rewrite Ho; exact seeded_org_ids|].
  split.
  { rewrite Hr, region_ids_flat, ids_of_key_present.
    apply (NoDup_flat_map_sub ids_of_key (map fst REGIONS_DB)
                              table_ids_distinct).
    - apply NoDup_filter. exact seeded_country_ids.
    - intros k Hk. apply filter_In in Hk. apply present_in_keys. tauto. }
  split; [exact Hnd|]. split.
  - rewrite Hr, Hc. apply Forall_forall. intros r Hin.
    apply in_flat_map in Hin. destruct Hin as [c [Hc' Hin]].
    rewrite (regions_of_country_id _ _ Hin). apply in_map. exact Hc'.
  - eapply Forall_impl; [|exact Hok]. intros e [H1 [H2 [H3 H4]]]. auto.
Qed.

Lemma main_dataset_closed_demo :
  main demo_rng = Ok (demo_dataset, demo_end)
  /\ NoDup (map edge_key (edges demo_dataset))
  /\ NoDup (map Region.id (regions demo_dataset)).
Proof.
  assert (run : main demo_rng = Ok (demo_dataset, demo_end))
    by (vm_compute; reflexivity).
  destruct (main_dataset_closed demo_rng demo_dataset demo_end run)
    as [_ [_ [Hr [He _]]]].
  split; [exact run|]. split; [exact He | exact Hr].
Defined.
